(** * CircularManuSystem: station controller, sensor reader and data logger

    A shallow embedding of [src/data_logger.py], [src/sensor_reader.py] and
    [src/station_controller.py].

    Python objects become records, attribute assignments become record
    updates threaded through a state-and-exception monad, and every call
    that leaves the three modules (sensors, NFC reader, motors, the file
    system, the hardware libraries) is answered by an oracle that may
    return a value or raise.  A raised exception keeps the state reached
    so far, as in Python, where the assignments made before the [raise]
    are not rolled back. *)

From stdpp Require Import gmap strings list fin_maps pretty.
From Stdlib Require Import ZArith Lia.

Open Scope Z_scope.

(** ** Exceptions and the state-and-exception monad *)

(** The exception classes that occur in the sources.  All of them derive
    from Python's [Exception]; [OtherError] stands for any further
    subclass of [Exception] a collaborator may raise. *)
Inductive exn : Set :=
  | ImportError
  | NotImplementedError
  | RuntimeError
  | OSError
  | AttributeError
  | KeyError
  | OtherError (name : string).

Inductive outcome (A : Type) : Type :=
  | Ok (a : A)
  | Raise (e : exn).
Arguments Ok {A} a.
Arguments Raise {A} e.

Definition M (S A : Type) : Type := S -> outcome A * S.

#[global] Instance M_ret {S} : MRet (M S) := fun A a s => (Ok a, s).

#[global] Instance M_bind {S} : MBind (M S) := fun A B f c s =>
  match c s with
  | (Ok a, s') => f a s'
  | (Raise e, s') => (Raise e, s')
  end.

Definition raise {S A} (e : exn) : M S A := fun s => (Raise e, s).
Definition get {S} : M S S := fun s => (Ok s, s).
Definition modify {S} (f : S -> S) : M S unit := fun s => (Ok tt, f s).

(** [try_except c h]: Python's [try: c  except Exception as e: h e]. *)
Definition try_except {S A} (c : M S A) (h : exn -> M S A) : M S A := fun s =>
  match c s with
  | (Ok a, s') => (Ok a, s')
  | (Raise e, s') => h e s'
  end.

(** Run a computation on a component of the state. *)
Definition zoom {S T A} (proj : S -> T) (upd : T -> S -> S) (c : M T A) : M S A :=
  fun s => let '(r, t) := c (proj s) in (r, upd t s).

(** [wp c Q X s]: run from [s], [c] returns [a] in a state with [Q a], or
    raises [e] in a state with [X e]. *)
Definition wp {S A} (c : M S A) (Q : A -> S -> Prop) (X : exn -> S -> Prop) (s : S)
    : Prop :=
  match c s with
  | (Ok a, s') => Q a s'
  | (Raise e, s') => X e s'
  end.

(** Console records written through Python's [logging] module. *)
Inductive level : Set := INFO | WARNING | ERROR.
Definition LogRecord : Type := level * string.

(** ** data_logger.py *)

Module DataLogger.

(** One line of the CSV file, in column order. *)
Record Row := mkRow {
  r_time : string;
  r_station : string;
  r_part : string;
  r_activity : string
}.

#[global] Instance Row_eq_dec : EqDecision Row.
Proof. solve_decision. Defined.

Definition header : Row := mkRow "Time" "Station ID" "Part ID" "Activity".

(** [self.log_file] is represented by the rows the file holds, [self.kpis]
    by a finite map from the dictionary keys to integers. *)
Record t := mk {
  rows : list Row;
  kpis : gmap string Z;
  console : list LogRecord
}.

Definition set_rows (f : list Row -> list Row) (d : t) : t :=
  mk (f (rows d)) (kpis d) (console d).
Definition set_kpis (f : gmap string Z -> gmap string Z) (d : t) : t :=
  mk (rows d) (f (kpis d)) (console d).
Definition log (l : level) (msg : string) (d : t) : t :=
  mk (rows d) (kpis d) (console d ++ [(l, msg)]).

Definition initial_kpis : gmap string Z :=
  <["total_parts" := 0]> (<["station1_count" := 0]> (<["station2_count" := 0]>
  (<["total_process_time" := 0]> (<["total_queue_time" := 0]> ∅)))).

(** [_create_csv]: a new file that holds the header row. *)
Definition _create_csv : M t unit :=
  modify (set_rows (fun _ => [header]));;
  modify (log INFO "Created new event log file").

(** [__init__].  [existing] is the content of [log_file] when the file is
    already there.  The directory is assumed to be creatable. *)
Definition __init__ (log_file : string) (existing : option (list Row)) : M t unit :=
  match existing with
  | None => _create_csv
  | Some content => modify (set_rows (fun _ => content))
  end;;
  modify (log INFO ("Data logger initialized: " +:+ log_file));;
  modify (set_kpis (fun _ => initial_kpis)).

Definition blank : t := mk [] ∅ [].

(** The logger right after construction. *)
Definition fresh (log_file : string) (existing : option (list Row)) : t :=
  snd (__init__ log_file existing blank).

(** [self.kpis[k] += 1]; a missing key raises [KeyError]. *)
Definition increment (k : string) : M t unit :=
  d ← get;
  match kpis d !! k with
  | Some v => modify (set_kpis (fun m => <[k := v + 1]> m))
  | None => raise KeyError
  end.

(** The [if station_id == "S1": ... elif station_id == "S2": ...] part of
    [_update_kpis]. *)
Definition count_station (station_id : string) : M t unit :=
  if String.eqb station_id "S1" then increment "station1_count"
  else if String.eqb station_id "S2" then increment "station2_count"
  else mret tt.

Definition _update_kpis (station_id activity : string) : M t unit :=
  if String.eqb activity "EXIT" then
    increment "total_parts";;
    count_station station_id
  else mret tt.

(** The two statements of [log_event] that precede [_update_kpis]. *)
Definition write_row (timestamp part_id station_id activity : string) : M t unit :=
  modify (set_rows (fun r => r ++ [mkRow timestamp station_id part_id activity]));;
  modify (log INFO ("Event: " +:+ timestamp +:+ " | " +:+ station_id +:+ " | "
                    +:+ part_id +:+ " | " +:+ activity)).

(** [log_event].  [timestamp] is what [datetime.now().strftime] returns;
    [io] is the failure, if any, of opening the file for appending.  The
    lock is taken and released within the call, so it does not show in
    the sequential model (see [Concurrent] below). *)
Definition log_event (timestamp : string) (io : option exn)
    (part_id station_id activity : string) : M t unit :=
  match io with
  | Some e => raise e
  | None =>
      write_row timestamp part_id station_id activity;;
      _update_kpis station_id activity
  end.

(** [get_kpis]: [self.kpis.copy()]. *)
Definition get_kpis (d : t) : gmap string Z := kpis d.

(** A call of [log_event] with everything it reads from outside. *)
Record Call := mkCall {
  c_time : string;
  c_io : option exn;
  c_part : string;
  c_station : string;
  c_activity : string
}.

Definition call (c : Call) : M t unit :=
  log_event (c_time c) (c_io c) (c_part c) (c_station c) (c_activity c).

(** The logger after a sequence of calls; a call that raised leaves the
    logger as it was when the exception left [log_event]. *)
Definition after (cs : list Call) (d : t) : t :=
  foldl (fun d c => snd (call c d)) d cs.

(** The rows of [rs] that record an [EXIT], and those of one station. *)
Definition is_exit (r : Row) : bool := String.eqb (r_activity r) "EXIT".
Definition is_exit_of (station_id : string) (r : Row) : bool :=
  is_exit r && String.eqb (r_station r) station_id.
Definition tally (f : Row -> bool) (rs : list Row) : Z :=
  Z.of_nat (length (filter (fun r => f r = true) rs)).

(** The dictionary has the three counters [_update_kpis] touches. *)
Definition has_counters (m : gmap string Z) : Prop :=
  is_Some (m !! "total_parts") /\
  is_Some (m !! "station1_count") /\
  is_Some (m !! "station2_count").

(** The counters after a completed call, from those before it. *)
Definition counted (station_id activity : string) (m : gmap string Z) : gmap string Z :=
  if String.eqb activity "EXIT" then
    let m1 := <["total_parts" := default 0 (m !! "total_parts") + 1]> m in
    if String.eqb station_id "S1"
    then <["station1_count" := default 0 (m !! "station1_count") + 1]> m1
    else if String.eqb station_id "S2"
    then <["station2_count" := default 0 (m !! "station2_count") + 1]> m1
    else m1
  else m.

(** The counters agree with the rows [rs]. *)
Definition counts (m : gmap string Z) (rs : list Row) : Prop :=
  m !! "total_parts" = Some (tally is_exit rs) /\
  m !! "station1_count" = Some (tally (is_exit_of "S1") rs) /\
  m !! "station2_count" = Some (tally (is_exit_of "S2") rs).

(** [total_parts == station1_count + station2_count] *)
Definition balanced (m : gmap string Z) : Prop :=
  exists s1 s2 : Z,
    m !! "station1_count" = Some s1 /\
    m !! "station2_count" = Some s2 /\
    m !! "total_parts" = Some (s1 + s2).

(** Four calls from two stations; the third cannot open the file. *)
Definition two_exits : list Call :=
  [ mkCall "2026-01-01 10:00:00" None "04a1b2" "S1" "ENTER";
    mkCall "2026-01-01 10:00:09" None "04a1b2" "S1" "EXIT";
    mkCall "2026-01-01 10:00:11" (Some OSError) "P4711" "S2" "EXIT";
    mkCall "2026-01-01 10:00:12" None "P4711" "S2" "EXIT" ].


(** The row a call writes, and the rows a sequence of calls leaves in the
    file: those of the calls that could open it, in call order. *)
Definition call_row (c : Call) : Row :=
  mkRow (c_time c) (c_station c) (c_part c) (c_activity c).

Definition opened (c : Call) : bool :=
  match c_io c with
  | None => true
  | Some _ => false
  end.

Definition written (cs : list Call) : list Row :=
  map call_row (filter (fun c => opened c = true) cs).

(** An EXIT of a station that has no counter of its own. *)
Definition foreign_exit (r : Row) : bool :=
  is_exit r && negb (String.eqb (r_station r) "S1") && negb (String.eqb (r_station r) "S2").

(** [print_kpis]: the lines printed, in order.  A missing key raises
    [KeyError]. *)
Definition lookup_kpi (k : string) (d : t) : outcome Z :=
  match kpis d !! k with
  | Some v => Ok v
  | None => Raise KeyError
  end.

Definition rule : string := "==================================================".

Definition print_kpis (d : t) : outcome (list string) :=
  match lookup_kpi "station1_count" d with
  | Raise e => Raise e
  | Ok s1 =>
    match lookup_kpi "station2_count" d with
    | Raise e => Raise e
    | Ok s2 =>
      match lookup_kpi "total_parts" d with
      | Raise e => Raise e
      | Ok total =>
          Ok [ ""; rule; "SYSTEM KPIs"; rule;
               "Station 1 processed: " +:+ pretty s1;
               "Station 2 processed: " +:+ pretty s2;
               "Total parts: " +:+ pretty total;
               rule; "" ]
      end
    end
  end.

End DataLogger.

(** ** sensor_reader.py *)

Module SensorReader.

(** Native GPIO pins (BCM numbering). *)
Definition STATION1_ENTRY : Z := 17.
Definition STATION1_PROCESS : Z := 27.
Definition STATION1_EXIT : Z := 22.
Definition STATION2_ENTRY : Z := 5.
Definition STATION2_PROCESS : Z := 6.
Definition STATION2_EXIT : Z := 13.
Definition CORNER1_POS : Z := 21.
Definition CORNER2_POS : Z := 12.
Definition CORNER3_POS : Z := 0.
Definition CORNER4_POS : Z := 1.

Definition PI_PINS : list Z :=
  [ STATION1_ENTRY; STATION1_PROCESS; STATION1_EXIT;
    STATION2_ENTRY; STATION2_PROCESS; STATION2_EXIT;
    CORNER1_POS; CORNER2_POS; CORNER3_POS; CORNER4_POS ].

(** The expander lookup table, in the order [items()] yields it. *)
Definition MCP_PIN_MAP : list (string * Z) :=
  [ ("CORNER1_RET", 0); ("CORNER2_RET", 1); ("CORNER3_RET", 2); ("CORNER4_RET", 3);
    ("CORNER1_EXT", 4); ("CORNER2_EXT", 5); ("CORNER3_EXT", 6); ("CORNER4_EXT", 7) ].

(** The statements of the module's [try: import ...] block outcome:
    [None] when every import succeeded, the exception otherwise.  The
    [except] clause lists three classes; anything else leaves the module
    unimported. *)
Definition import_hardware (imports : option exn) : outcome bool :=
  match imports with
  | None => Ok true
  | Some ImportError => Ok false
  | Some NotImplementedError => Ok false
  | Some RuntimeError => Ok false
  | Some e => Raise e
  end.

(** Calls into RPi.GPIO, busio and the MCP23017 driver made by
    [__init__]. *)
Inductive HwCall : Set :=
  | GPIO_setmode
  | GPIO_setwarnings
  | GPIO_setup (pin : Z)
  | busio_I2C
  | MCP23017
  | mcp_get_pin (pin_num : Z)
  | pin_direction (pin_num : Z)
  | pin_pull (pin_num : Z).

#[global] Instance HwCall_eq_dec : EqDecision HwCall.
Proof. solve_decision. Defined.

(** The hardware: which calls fail, and how. *)
Definition Hardware : Type := HwCall -> option exn.

Record t := mk {
  simulation : bool;
  mcp : bool;                      (* [self.mcp is not None] *)
  mcp_pins : gmap string Z;        (* name -> pin object, by its number *)
  console : list LogRecord
}.

Definition set_simulation (b : bool) (r : t) : t :=
  mk b (mcp r) (mcp_pins r) (console r).
Definition set_mcp (b : bool) (r : t) : t :=
  mk (simulation r) b (mcp_pins r) (console r).
Definition set_mcp_pins (f : gmap string Z -> gmap string Z) (r : t) : t :=
  mk (simulation r) (mcp r) (f (mcp_pins r)) (console r).
Definition log (l : level) (msg : string) (r : t) : t :=
  mk (simulation r) (mcp r) (mcp_pins r) (console r ++ [(l, msg)]).

Definition str (e : exn) : string :=
  match e with
  | ImportError => "ImportError"
  | NotImplementedError => "NotImplementedError"
  | RuntimeError => "RuntimeError"
  | OSError => "OSError"
  | AttributeError => "AttributeError"
  | KeyError => "KeyError"
  | OtherError name => name
  end.

Section Init.
Variable hw : Hardware.

Definition hwcall (c : HwCall) : M t unit :=
  match hw c with
  | Some e => raise e
  | None => mret tt
  end.

(** [for x in l: body x] *)
Fixpoint for_each {A} (l : list A) (body : A -> M t unit) : M t unit :=
  match l with
  | [] => mret tt
  | x :: l' => body x;; for_each l' body
  end.

(** The body of the [try] block. *)
Definition live_init : M t unit :=
  hwcall GPIO_setmode;;
  hwcall GPIO_setwarnings;;
  for_each PI_PINS (fun pin => hwcall (GPIO_setup pin));;
  modify (log INFO ("Initialized " +:+ pretty (Z.of_nat (length PI_PINS))
                    +:+ " native GPIO sensors"));;
  modify (log INFO "Initializing MCP23017 GPIO expander...");;
  hwcall busio_I2C;;
  hwcall MCP23017;;
  modify (set_mcp true);;
  for_each MCP_PIN_MAP (fun '(name, pin_num) =>
    hwcall (mcp_get_pin pin_num);;
    hwcall (pin_direction pin_num);;
    hwcall (pin_pull pin_num);;
    modify (set_mcp_pins (fun pins => <[name := pin_num]> pins)));;
  r ← get;
  modify (log INFO ("Initialized " +:+ pretty (Z.of_nat (size (mcp_pins r)))
                    +:+ " expander sensors")).

Definition __init__ (HARDWARE_AVAILABLE : bool) (simulation_arg : bool) : M t unit :=
  modify (fun _ => mk (simulation_arg || negb HARDWARE_AVAILABLE) false ∅ []);;
  r ← get;
  if negb (simulation r) then
    try_except live_init (fun e =>
      modify (log ERROR ("Failed to initialize hardware: " +:+ str e));;
      modify (log ERROR "Falling back to simulation mode");;
      modify (set_simulation true))
  else
    modify (log INFO "Running in SIMULATION mode").

(** The hardware calls [live_init] makes when none of them fails. *)
Definition live_calls : list HwCall :=
  [GPIO_setmode; GPIO_setwarnings] ++ map GPIO_setup PI_PINS
  ++ [busio_I2C; MCP23017]
  ++ flat_map (fun '(_, n) => [mcp_get_pin n; pin_direction n; pin_pull n]) MCP_PIN_MAP.

End Init.

Definition blank : t := mk false false ∅ [].

(** The hardware refuses call [c]. *)
Definition fails (hw : Hardware) (c : HwCall) : bool := bool_decide (is_Some (hw c)).

End SensorReader.

(** ** station_controller.py *)

Module StationController.

Inductive StationState : Set :=
  | IDLE
  | ADVANCING_TO_PROCESS
  | PROCESSING
  | ADVANCING_TO_EXIT
  | EXITING.

#[global] Instance StationState_eq_dec : EqDecision StationState.
Proof. solve_decision. Defined.

(** Modelled from the spec: the [Part] entity of [nfc_reader], which is
    not among the sources.  The spec gives it an identifier string and an
    ordered, append-only sequence of (station_id, activity, timestamp)
    events; the timestamp is the clock reading in milliseconds. *)
Record Part := mkPart {
  part_id : string;
  events : list (string * string * Z)
}.

Definition add_event (station_id activity : string) (now : Z) (p : Part) : Part :=
  mkPart (part_id p) (events p ++ [(station_id, activity, now)]).

(** Calls that leave the module.  Durations are in milliseconds, so that
    the source's 0.05 s, 0.1 s and 0.5 s are integers. *)
Inductive Call : Set :=
  | station1_entry
  | station2_entry
  | station1_exit
  | station2_exit
  | wait_for_pi (pin : Z) (timeout : Z)
  | read_tag (timeout : Z)
  | set_speed (motor : Z) (speed : Z)
  | stop_motor (motor : Z)
  | import_Part
  | open_log_file
  | sleep (duration : Z)
  | thread_start
  | thread_join (timeout : Z).

#[global] Instance Call_eq_dec : EqDecision Call.
Proof. solve_decision. Defined.

(** What the outside answers to a call.  A call reads the fields that
    apply to it. *)
Record Answer := mkAnswer {
  a_raise : option exn;     (* the call raises *)
  a_bool : bool;            (* level read or wait result *)
  a_tag : option string;    (* result of a tag read *)
  a_elapsed : Z;            (* time spent in the call, beyond a requested sleep *)
  a_stamp : string          (* [datetime.now()] as formatted for the CSV row *)
}.

(** The environment: the answer to the [n]-th external call, which may
    depend on the call, and the display form of a part identifier
    ([Part.get_short_id], whose length the spec leaves open). *)
Record Env := mkEnv {
  answer : nat -> Call -> Answer;
  short_form : string -> string
}.

(** The attributes of a [StationController] object. *)
Record Controller := mkController {
  station_num : Z;
  station_id : string;
  process_time : Z;
  motor_speed : Z;
  motor_num : Z;
  state : StationState;
  current_part : option nat;       (* reference into the heap of parts *)
  queue : list string;
  running : bool;
  stop_event : bool;
  thread : option nat
}.

(** The controller together with the objects it shares or drives. *)
Record World := mkWorld {
  ctl : Controller;
  heap : list Part;                (* every [Part] object built so far *)
  data_logger : DataLogger.t;
  motors : gmap Z Z;               (* commanded speed per actuator *)
  console : list LogRecord;
  clock : Z;                       (* [time.time()], in milliseconds *)
  trace : list Call;               (* external calls made so far *)
  threads : nat                    (* loop threads started so far *)
}.

Definition set_ctl (f : Controller -> Controller) (w : World) : World :=
  mkWorld (f (ctl w)) (heap w) (data_logger w) (motors w) (console w)
          (clock w) (trace w) (threads w).
Definition set_heap (f : list Part -> list Part) (w : World) : World :=
  mkWorld (ctl w) (f (heap w)) (data_logger w) (motors w) (console w)
          (clock w) (trace w) (threads w).
Definition set_data_logger (d : DataLogger.t) (w : World) : World :=
  mkWorld (ctl w) (heap w) d (motors w) (console w) (clock w) (trace w) (threads w).
Definition set_motors (f : gmap Z Z -> gmap Z Z) (w : World) : World :=
  mkWorld (ctl w) (heap w) (data_logger w) (f (motors w)) (console w)
          (clock w) (trace w) (threads w).
Definition log (l : level) (msg : string) (w : World) : World :=
  mkWorld (ctl w) (heap w) (data_logger w) (motors w) (console w ++ [(l, msg)])
          (clock w) (trace w) (threads w).
Definition tick (c : Call) (elapsed : Z) (w : World) : World :=
  mkWorld (ctl w) (heap w) (data_logger w) (motors w) (console w)
          (clock w + elapsed) (trace w ++ [c]) (threads w).
Definition set_threads (n : nat) (w : World) : World :=
  mkWorld (ctl w) (heap w) (data_logger w) (motors w) (console w)
          (clock w) (trace w) n.

Definition set_state (s : StationState) (c : Controller) : Controller :=
  mkController (station_num c) (station_id c) (process_time c) (motor_speed c)
               (motor_num c) s (current_part c) (queue c) (running c)
               (stop_event c) (thread c).
Definition set_current_part (p : option nat) (c : Controller) : Controller :=
  mkController (station_num c) (station_id c) (process_time c) (motor_speed c)
               (motor_num c) (state c) p (queue c) (running c)
               (stop_event c) (thread c).
Definition set_running (b : bool) (c : Controller) : Controller :=
  mkController (station_num c) (station_id c) (process_time c) (motor_speed c)
               (motor_num c) (state c) (current_part c) (queue c) b
               (stop_event c) (thread c).
Definition set_stop_event (b : bool) (c : Controller) : Controller :=
  mkController (station_num c) (station_id c) (process_time c) (motor_speed c)
               (motor_num c) (state c) (current_part c) (queue c) (running c)
               b (thread c).
Definition set_thread (t : option nat) (c : Controller) : Controller :=
  mkController (station_num c) (station_id c) (process_time c) (motor_speed c)
               (motor_num c) (state c) (current_part c) (queue c) (running c)
               (stop_event c) t.

(** [__init__].  [config] is the nested configuration dictionary; a
    missing key raises [KeyError]. *)
Definition config_get (config : gmap string (gmap string Z)) (section key : string)
    : outcome Z :=
  match config !! section with
  | None => Raise KeyError
  | Some d => match d !! key with
              | None => Raise KeyError
              | Some v => Ok v
              end
  end.

Definition __init__ (station_num : Z) (config : gmap string (gmap string Z))
    : outcome (Controller * list LogRecord) :=
  match config_get config "stations" ("station" +:+ pretty station_num +:+ "_process_time") with
  | Raise e => Raise e
  | Ok process_time =>
    match config_get config "motors" "station_speed" with
    | Raise e => Raise e
    | Ok speed =>
      Ok (mkController station_num ("S" +:+ pretty station_num) process_time
            (if station_num =? 1 then speed else - speed)
            (2 + station_num) IDLE None [] false false None,
          [(INFO, "Station " +:+ pretty station_num +:+ " initialized")])
    end
  end.

(** The world of a newly built controller that is handed the data logger
    [d]: no part exists, no motor was commanded, no call was made. *)
Definition new_world (c : Controller) (d : DataLogger.t) (msgs : list LogRecord)
    (now : Z) : World :=
  mkWorld c [] d ∅ msgs now [] 0.

Definition str := SensorReader.str.

Section Operations.
Variable E : Env.

(** An external call: the environment's answer is looked up under the
    number of calls made before, the call is recorded, and the time it
    took passes. *)
Definition extern (c : Call) : M World Answer := fun w =>
  let a := answer E (length (trace w)) c in
  (Ok a, tick c (Z.max 0 (a_elapsed a)) w).

Definition call_unit (c : Call) : M World unit :=
  a ← extern c;
  match a_raise a with
  | Some e => raise e
  | None => mret tt
  end.

Definition call_bool (c : Call) : M World bool :=
  a ← extern c;
  match a_raise a with
  | Some e => raise e
  | None => mret (a_bool a)
  end.

Definition call_tag (c : Call) : M World (option string) :=
  a ← extern c;
  match a_raise a with
  | Some e => raise e
  | None => mret (a_tag a)
  end.

(** [time.sleep(d)]: at least [d] passes; a negative [d] is a
    [ValueError]. *)
Definition time_sleep (d : Z) : M World unit :=
  if d <? 0 then raise (OtherError "ValueError")
  else fun w =>
    let a := answer E (length (trace w)) (sleep d) in
    (Ok tt, tick (sleep d) (d + Z.max 0 (a_elapsed a)) w).

(** Modelled from the spec: the motor collaborator, which is not among
    the sources.  [set_speed(actuator_index, signed_speed)] commands a
    speed and [stop(actuator_index)] commands speed 0; a call that
    raises commands nothing. *)
Definition motors_set_speed (n v : Z) : M World unit :=
  call_unit (set_speed n v);;
  modify (set_motors (fun m => <[n := v]> m)).

Definition motors_stop (n : Z) : M World unit :=
  call_unit (stop_motor n);;
  modify (set_motors (fun m => <[n := 0]> m)).

(** [self.data_logger.log_event(...)]: the wall-clock stamp and the
    outcome of opening the file come from the environment. *)
Definition data_logger_log_event (part_id station_id activity : string)
    : M World unit :=
  a ← extern open_log_file;
  zoom data_logger set_data_logger
       (DataLogger.log_event (a_stamp a) (a_raise a) part_id station_id activity).

(** [self.current_part.<attribute>]: [None] has no attributes. *)
Definition the_part : M World (nat * Part) :=
  w ← get;
  match current_part (ctl w) with
  | None => raise AttributeError
  | Some l =>
      match heap w !! l with
      | Some p => mret (l, p)
      | None => raise AttributeError
      end
  end.

(** [self.current_part = Part(identifier)] *)
Definition new_part (identifier : string) : M World unit :=
  w ← get;
  modify (set_heap (fun h => h ++ [mkPart identifier []]));;
  modify (set_ctl (set_current_part (Some (length (heap w))))).

(** [self.current_part.add_event(self.station_id, activity)] *)
Definition part_add_event (activity : string) : M World unit :=
  lp ← the_part;
  w ← get;
  modify (set_heap (fun h =>
    <[lp.1 := add_event (station_id (ctl w)) activity (clock w) lp.2]> h)).

Definition entry_sensor : M World bool :=
  w ← get;
  if station_num (ctl w) =? 1 then call_bool station1_entry
  else call_bool station2_entry.

Definition exit_sensor : M World bool :=
  w ← get;
  if station_num (ctl w) =? 1 then call_bool station1_exit
  else call_bool station2_exit.

(** Python truth value of [tag_uid]. *)
Definition truthy (tag_uid : option string) : bool :=
  match tag_uid with
  | Some s => negb (String.eqb s "")
  | None => false
  end.

Definition _state_idle : M World unit :=
  entry_sensor_check ← entry_sensor;
  if (entry_sensor_check : bool) then
    modify (log INFO "Part detected at entry. Reading NFC tag...");;
    tag_uid ← call_tag (read_tag 2000);
    entry_sensor_check_after ← entry_sensor;
    if negb entry_sensor_check_after then
      modify (log WARNING "Part detected but disappeared during NFC read. Resetting.")
    else
      (if truthy tag_uid then
         call_unit import_Part;;
         new_part (default "" tag_uid);;
         modify (log INFO ("Part identified: " +:+ default "" tag_uid))
       else
         call_unit import_Part;;
         w ← get;
         let part_id := "P" +:+ pretty (clock w `mod` 10000) in
         new_part part_id;;
         modify (log WARNING ("No NFC tag - generated ID: " +:+ part_id)));;
      lp ← the_part;
      w ← get;
      data_logger_log_event (part_id lp.2) (station_id (ctl w)) "ENTER";;
      part_add_event "ENTER";;
      modify (set_ctl (set_state ADVANCING_TO_PROCESS))
  else mret tt.

Definition _state_advancing_to_process : M World unit :=
  modify (log INFO "Advancing to process position...");;
  w ← get;
  motors_set_speed (motor_num (ctl w)) (motor_speed (ctl w));;
  sensor_triggered ←
    (if station_num (ctl w) =? 1
     then call_bool (wait_for_pi SensorReader.STATION1_PROCESS 10000)
     else call_bool (wait_for_pi SensorReader.STATION2_PROCESS 10000));
  motors_stop (motor_num (ctl w));;
  if (sensor_triggered : bool) then
    modify (log INFO "Part at process position");;
    modify (set_ctl (set_state PROCESSING))
  else
    modify (log ERROR "Timeout waiting for process sensor");;
    lp ← the_part;
    data_logger_log_event (part_id lp.2) (station_id (ctl w)) "ERROR_TIMEOUT_PROCESS";;
    modify (set_ctl (set_current_part None));;
    modify (set_ctl (set_state IDLE)).

Definition _state_processing : M World unit :=
  w ← get;
  modify (log INFO ("Processing for " +:+ pretty (process_time (ctl w)) +:+ "ms..."));;
  time_sleep (process_time (ctl w));;
  modify (log INFO "Processing complete");;
  modify (set_ctl (set_state ADVANCING_TO_EXIT)).

Definition _state_advancing_to_exit : M World unit :=
  modify (log INFO "Advancing to exit...");;
  w ← get;
  motors_set_speed (motor_num (ctl w)) (motor_speed (ctl w));;
  sensor_triggered ←
    (if station_num (ctl w) =? 1
     then call_bool (wait_for_pi SensorReader.STATION1_EXIT 10000)
     else call_bool (wait_for_pi SensorReader.STATION2_EXIT 10000));
  motors_stop (motor_num (ctl w));;
  if (sensor_triggered : bool) then
    modify (log INFO "Part at exit");;
    modify (set_ctl (set_state EXITING))
  else
    modify (log ERROR "Timeout waiting for exit sensor");;
    lp ← the_part;
    data_logger_log_event (part_id lp.2) (station_id (ctl w)) "ERROR_TIMEOUT_EXIT";;
    modify (set_ctl (set_current_part None));;
    modify (set_ctl (set_state IDLE)).

(** The loop [while time.time() - start_time < timeout] of
    [_state_exiting].  Every turn either leaves the loop or sleeps
    0.1 s, so [fuel] turns are enough when [fuel * 100 >= timeout];
    the result is [false] only when the fuel ran out first. *)
Fixpoint clear_wait (fuel : nat) (start_time timeout : Z) : M World bool :=
  w ← get;
  if clock w - start_time <? timeout then
    match fuel with
    | O => mret false
    | S fuel' =>
        blocked ← exit_sensor;
        if negb blocked then
          time_sleep 500;; mret true
        else
          time_sleep 100;; clear_wait fuel' start_time timeout
    end
  else mret true.

Definition _state_exiting : M World unit :=
  w ← get;
  motors_set_speed (motor_num (ctl w)) (motor_speed (ctl w));;
  w1 ← get;
  let start_time := clock w1 in
  let timeout := 5000 in
  clear_wait 50 start_time timeout;;
  motors_stop (motor_num (ctl w));;
  w2 ← get;
  match current_part (ctl w2) with
  | Some _ =>
      lp ← the_part;
      data_logger_log_event (part_id lp.2) (station_id (ctl w)) "EXIT";;
      part_add_event "EXIT";;
      modify (log INFO ("Part " +:+ short_form E (part_id lp.2) +:+ " completed"))
  | None => mret tt
  end;;
  modify (set_ctl (set_current_part None));;
  modify (set_ctl (set_state IDLE)).

(** The [if]/[elif] chain of [_run]. *)
Definition dispatch : M World unit :=
  w ← get;
  match state (ctl w) with
  | IDLE => _state_idle
  | ADVANCING_TO_PROCESS => _state_advancing_to_process
  | PROCESSING => _state_processing
  | ADVANCING_TO_EXIT => _state_advancing_to_exit
  | EXITING => _state_exiting
  end.

(** The [except Exception] clause of [_run]. *)
Definition recover (e : exn) : M World unit :=
  modify (log ERROR ("Error in control loop: " +:+ str e));;
  w ← get;
  motors_stop (motor_num (ctl w));;
  time_sleep 1000.

(** One turn of the [while] loop of [_run]. *)
Definition iteration : M World unit :=
  try_except (dispatch;; time_sleep 50) recover.

Definition loop_condition (w : World) : bool :=
  running (ctl w) && negb (stop_event (ctl w)).

(** The first [n] turns of the loop: [true] when the loop is still
    going after them, [false] when its condition ended it; an exception
    that leaves a turn leaves [_run]. *)
Fixpoint loop (n : nat) : M World bool :=
  w ← get;
  if loop_condition w then
    match n with
    | O => mret true
    | S n' => iteration;; loop n'
    end
  else mret false.

Definition _run (n : nat) : M World bool :=
  w ← get;
  modify (log INFO ("Station " +:+ pretty (station_num (ctl w)) +:+ " control loop started"));;
  loop n.

Definition start : M World unit :=
  w ← get;
  if running (ctl w) then mret tt
  else
    modify (set_ctl (set_running true));;
    modify (set_ctl (set_stop_event false));;
    modify (set_ctl (set_thread (Some (threads w))));;
    call_unit thread_start;;
    modify (set_threads (S (threads w)));;
    modify (log INFO ("Station " +:+ pretty (station_num (ctl w)) +:+ " started")).

Definition stop : M World unit :=
  w ← get;
  if negb (running (ctl w)) then mret tt
  else
    modify (set_ctl (set_running false));;
    modify (set_ctl (set_stop_event true));;
    match thread (ctl w) with
    | Some _ => extern (thread_join 2000);; mret tt
    | None => mret tt
    end;;
    motors_stop (motor_num (ctl w));;
    modify (log INFO ("Station " +:+ pretty (station_num (ctl w)) +:+ " stopped")).

End Operations.

(** The entry sensor method the controller of a station calls. *)
Definition entry_call (c : Controller) : Call :=
  if station_num c =? 1 then station1_entry else station2_entry.

Definition exit_call (c : Controller) : Call :=
  if station_num c =? 1 then station1_exit else station2_exit.

(** The two advancing states, their handlers, the pin each waits on and
    the activity each logs on a timeout. *)
Inductive Advance : Set := to_process | to_exit.

Definition advancing_state (a : Advance) : StationState :=
  match a with
  | to_process => ADVANCING_TO_PROCESS
  | to_exit => ADVANCING_TO_EXIT
  end.

Definition advancing_handler (E : Env) (a : Advance) : M World unit :=
  match a with
  | to_process => _state_advancing_to_process E
  | to_exit => _state_advancing_to_exit E
  end.

Definition position_pin (a : Advance) (c : Controller) : Z :=
  match a with
  | to_process =>
      if station_num c =? 1 then SensorReader.STATION1_PROCESS
      else SensorReader.STATION2_PROCESS
  | to_exit =>
      if station_num c =? 1 then SensorReader.STATION1_EXIT
      else SensorReader.STATION2_EXIT
  end.

Definition timeout_activity (a : Advance) : string :=
  match a with
  | to_process => "ERROR_TIMEOUT_PROCESS"
  | to_exit => "ERROR_TIMEOUT_EXIT"
  end.

(** The worlds a station can be in: a controller is built and handed a
    data logger that was constructed and possibly used before; then
    [start], [stop] and turns of the control loop follow in any order,
    against any environment.  With [strict], only turns in which the
    state handler returned are taken. *)
Inductive reachable (strict : bool) : World -> Prop :=
  | reach_new station_num config c msgs log_file existing calls now :
      __init__ station_num config = Ok (c, msgs) ->
      reachable strict
        (new_world c (DataLogger.after calls (DataLogger.fresh log_file existing)) msgs now)
  | reach_start E w :
      reachable strict w -> reachable strict (snd (start E w))
  | reach_stop E w :
      reachable strict w -> reachable strict (snd (stop E w))
  | reach_turn E w :
      reachable strict w ->
      (strict = true -> exists w', dispatch E w = (Ok tt, w')) ->
      reachable strict (snd (iteration E w)).

(** [w'] differs from [w] at most in the console, the clock and the
    trace of calls. *)
Definition unchanged (w w' : World) : Prop :=
  ctl w' = ctl w /\ heap w' = heap w /\ data_logger w' = data_logger w /\
  motors w' = motors w /\ threads w' = threads w.

(** What holds of a station between two turns of its loop.  The logger
    has its counters.  Outside IDLE the station owns a part, which is in
    the heap, and the last row of the log is the ENTER of that part: no
    other row was written for it yet.  [current_part] never dangles.
    [strict] adds that in IDLE no part is owned, which holds as long as no
    handler raised. *)
Definition invariant (strict : bool) (w : World) : Prop :=
  DataLogger.has_counters (DataLogger.kpis (data_logger w)) /\
  (forall l, current_part (ctl w) = Some l -> is_Some (heap w !! l)) /\
  (state (ctl w) <> IDLE ->
   exists l p stamp earlier,
     current_part (ctl w) = Some l /\ heap w !! l = Some p /\
     DataLogger.rows (data_logger w)
       = earlier ++ [DataLogger.mkRow stamp (station_id (ctl w)) (part_id p) "ENTER"]) /\
  (strict = true -> state (ctl w) = IDLE -> current_part (ctl w) = None).

(** The row [current_part]'s ENTER left in the log. *)
Definition enter_row (stamp : string) (c : Controller) (p : Part) : DataLogger.Row :=
  DataLogger.mkRow stamp (station_id c) (part_id p) "ENTER".

(** *** A station and two environments, for the examples *)

Definition example_config : gmap string (gmap string Z) :=
  <["stations" := <["station1_process_time" := 100]> (<["station2_process_time" := 150]> ∅)]>
  (<["motors" := <["station_speed" := 60]> ∅]> ∅).

Definition example_controller : Controller :=
  mkController 1 "S1" 100 60 3 IDLE None [] false false None.

Definition example_world : World :=
  new_world example_controller
            (DataLogger.after [] (DataLogger.fresh "data/events.csv" None))
            [(INFO, "Station 1 initialized")] 1767261600000.

Definition quiet : Answer := mkAnswer None false None 0 "2026-01-01 10:00:00".
Definition present : Answer := mkAnswer None true (Some "04a1b2c3") 0 "2026-01-01 10:00:00".
Definition broken : Answer := mkAnswer (Some OSError) false None 0 "2026-01-01 10:00:00".

(** Every sensor sees the part, every wait succeeds, except that the exit
    sensor clears at its third reading. *)
Definition smooth : Env :=
  mkEnv (fun n c => match c with
                    | station1_exit => if (n <? 20)%nat then present else quiet
                    | _ => present
                    end)
        (fun s => s).

(** The part is at the entry but never reaches a position sensor. *)
Definition stuck : Env :=
  mkEnv (fun n c => match c with
                    | wait_for_pi _ _ => quiet
                    | _ => present
                    end)
        (fun s => s).

(** The part is gone when the tag read returns. *)
Definition glitch : Env :=
  mkEnv (fun n c => if (n <? 2)%nat then present else quiet) (fun s => s).

(** The exit sensor never clears. *)
Definition blocked_exit : Env :=
  mkEnv (fun n c => present) (fun s => s).

(** [set_speed] raises, [stop] does not. *)
Definition jammed : Env :=
  mkEnv (fun n c => match c with
                    | set_speed _ _ => broken
                    | _ => present
                    end)
        (fun s => s).

(** The motor driver raises on every call. *)
Definition dead_motor : Env :=
  mkEnv (fun n c => match c with
                    | set_speed _ _ | stop_motor _ => broken
                    | _ => present
                    end)
        (fun s => s).

(** The example station after [start] and after each of the four turns
    that take a part in and bring it to the exit. *)
Definition started : World := snd (start smooth example_world).
Definition entered : World := snd (iteration smooth started).
Definition at_process : World := snd (iteration smooth entered).
Definition processed : World := snd (iteration smooth at_process).
Definition at_exit : World := snd (iteration smooth processed).


(** The worlds that follow [w0]: [start], [stop] and turns of the control
    loop, in any order, against any environments. *)
Inductive follows (w0 : World) : World -> Prop :=
  | follows_here : follows w0 w0
  | follows_start E w : follows w0 w -> follows w0 (snd (start E w))
  | follows_stop E w : follows w0 w -> follows w0 (snd (stop E w))
  | follows_turn E w : follows w0 w -> follows w0 (snd (iteration E w)).

(** What one turn of the loop can do in each state: the activities of the
    rows it appends to the log, and the state it ends in. *)
Definition moves (s : StationState) : list (list string * StationState) :=
  match s with
  | IDLE => [([], IDLE); (["ENTER"], ADVANCING_TO_PROCESS)]
  | ADVANCING_TO_PROCESS =>
      [([], ADVANCING_TO_PROCESS); ([], PROCESSING); (["ERROR_TIMEOUT_PROCESS"], IDLE)]
  | PROCESSING => [([], PROCESSING); ([], ADVANCING_TO_EXIT)]
  | ADVANCING_TO_EXIT =>
      [([], ADVANCING_TO_EXIT); ([], EXITING); (["ERROR_TIMEOUT_EXIT"], IDLE)]
  | EXITING => [([], EXITING); (["EXIT"], IDLE)]
  end.



(** The motor calls of a station with motor [k] and speed [v]. *)
Definition own_motor_call (k v : Z) (c : Call) : Prop :=
  match c with
  | set_speed m s => m = k /\ s = v
  | stop_motor m => m = k
  | _ => True
  end.

(** One turn took [w] to [w']: rows were appended as one of the moves of
    the state of [w] says. *)
Definition turned (w w' : World) : Prop :=
  exists new,
    DataLogger.rows (data_logger w') = DataLogger.rows (data_logger w) ++ new /\
    (map DataLogger.r_activity new, state (ctl w')) ∈ moves (state (ctl w)) /\
    Forall (fun r => DataLogger.r_station r = station_id (ctl w)) new.

(** The attributes of a controller that are assigned in [__init__] only. *)
Definition same_station (c c' : Controller) : Prop :=
  station_num c' = station_num c /\ station_id c' = station_id c /\
  process_time c' = process_time c /\ motor_speed c' = motor_speed c /\
  motor_num c' = motor_num c.

(** All motor calls made so far were for motor [k], and no other motor
    has a commanded speed. *)
Definition drives_only (k v : Z) (w : World) : Prop :=
  motor_num (ctl w) = k /\ motor_speed (ctl w) = v /\
  Forall (own_motor_call k v) (trace w) /\
  dom (motors w) ⊆ {[k]}.


(** The state an advancing handler assigns when its wait succeeds. *)
Definition position_state (a : Advance) : StationState :=
  match a with
  | to_process => PROCESSING
  | to_exit => EXITING
  end.

(** The moment [_state_idle] generates an identifier: the clock after
    the sensor read, the tag read, the second sensor read and the import
    of [Part]. *)
Definition identified_at (E : Env) (w : World) : Z :=
  let n := length (trace w) in
  clock w
  + Z.max 0 (a_elapsed (answer E n (entry_call (ctl w))))
  + Z.max 0 (a_elapsed (answer E (S n) (read_tag 2000)))
  + Z.max 0 (a_elapsed (answer E (S (S n)) (entry_call (ctl w))))
  + Z.max 0 (a_elapsed (answer E (S (S (S n))) import_Part)).

(** A part is at the entry and stays there, and the calls of
    [_state_idle] return. *)
Definition part_arrives (E : Env) (w : World) : Prop :=
  let n := length (trace w) in
  a_raise (answer E n (entry_call (ctl w))) = None /\
  a_bool (answer E n (entry_call (ctl w))) = true /\
  a_raise (answer E (S n) (read_tag 2000)) = None /\
  a_raise (answer E (S (S n)) (entry_call (ctl w))) = None /\
  a_bool (answer E (S (S n)) (entry_call (ctl w))) = true /\
  a_raise (answer E (S (S (S n))) import_Part) = None /\
  a_raise (answer E (S (S (S (S n)))) open_log_file) = None.

(** The identifier [_state_idle] gives the part: the tag when one was
    read, else one made from the clock. *)
Definition identifier (tag_uid : option string) (now : Z) : string :=
  if truthy tag_uid then default "" tag_uid
  else "P" +:+ pretty (now `mod` 10000).

(** A part without a tag is at the entry. *)
Definition untagged : Env :=
  mkEnv (fun n c => match c with
                    | read_tag _ => quiet
                    | _ => present
                    end)
        (fun s => s).

(** The thread cannot be started. *)
Definition no_thread : Answer :=
  mkAnswer (Some RuntimeError) false None 0 "2026-01-01 10:00:00".
Definition no_threads : Env :=
  mkEnv (fun n c => match c with
                    | thread_start => no_thread
                    | _ => present
                    end)
        (fun s => s).

(** The started example station twenty seconds later. *)
Definition later : World :=
  mkWorld (ctl started) (heap started) (data_logger started) (motors started)
          (console started) (clock started + 20000) (trace started) (threads started).

(** A running station in PROCESSING whose configured process time is
    negative. *)
Definition backwards : World :=
  mkWorld (mkController 1 "S1" (-1) 60 3 PROCESSING (Some 0%nat) [] true false (Some 0%nat))
          [mkPart "04a1b2c3" [("S1", "ENTER", 1767261600000)]]
          (DataLogger.fresh "data/events.csv" None) ∅ [] 1767261600000 [] 1.

End StationController.

(** ** Threads that share one data logger

    Every station thread calls [log_event] on the same [DataLogger] and
    other code reads the counters with [get_kpis].  Python may switch
    threads between any two statements, so a writer is followed statement
    by statement: a step is one statement of [log_event] run by one
    thread, and a schedule says which thread steps next. *)

Module Concurrent.
Import DataLogger.

(** Where a thread that runs [log_event] stands. *)
Inductive pc : Set :=
  | Waiting                       (* at [with self.lock:], lock not yet held *)
  | Locked                        (* lock held, row not yet written *)
  | Written                       (* row written, counters untouched *)
  | Counted                       (* [total_parts] incremented *)
  | Leaving                       (* counters done, lock still held *)
  | Finished (r : outcome unit).  (* [log_event] returned or raised *)

Inductive Thread : Type :=
  | writer (c : Call) (at_pc : pc)
  | reader (seen : option (gmap string Z)).   (* [seen = logger.get_kpis()] *)

Record State := mk {
  lock : option nat;              (* the thread that holds [self.lock] *)
  logger : DataLogger.t;
  threads : list Thread
}.

Definition inside (th : Thread) : bool :=
  match th with
  | writer _ (Locked | Written | Counted | Leaving) => true
  | _ => false
  end.

(** Thread [i] runs [c] on the logger and moves to [next]; an exception
    leaves the [with] block, which releases the lock. *)
Definition advance (i : nat) (s : State) (c : Call) (body : M DataLogger.t unit)
    (next : pc) : State :=
  match body (logger s) with
  | (Ok _, d) => mk (lock s) d (<[i := writer c next]> (threads s))
  | (Raise e, d) => mk None d (<[i := writer c (Finished (Raise e))]> (threads s))
  end.

(** One step of thread [i]; [None] when the thread is blocked on the
    lock, has finished, or does not exist. *)
Definition step (i : nat) (s : State) : option State :=
  match threads s !! i with
  | None => None
  | Some (reader (Some _)) => None
  | Some (reader None) =>
      Some (mk (lock s) (logger s) (<[i := reader (Some (get_kpis (logger s)))]> (threads s)))
  | Some (writer c Waiting) =>
      match lock s with
      | None => Some (mk (Some i) (logger s) (<[i := writer c Locked]> (threads s)))
      | Some _ => None
      end
  | Some (writer c Locked) =>
      Some (advance i s c
              (match c_io c with
               | Some e => raise e
               | None => write_row (c_time c) (c_part c) (c_station c) (c_activity c)
               end) Written)
  | Some (writer c Written) =>
      if String.eqb (c_activity c) "EXIT"
      then Some (advance i s c (increment "total_parts") Counted)
      else Some (advance i s c (mret tt) Leaving)
  | Some (writer c Counted) =>
      Some (advance i s c (count_station (c_station c)) Leaving)
  | Some (writer c Leaving) =>
      Some (mk None (logger s) (<[i := writer c (Finished (Ok tt))]> (threads s)))
  | Some (writer c (Finished _)) => None
  end.

(** Run a schedule; a thread that cannot step is skipped. *)
Fixpoint exec (schedule : list nat) (s : State) : State :=
  match schedule with
  | [] => s
  | i :: rest => exec rest (default s (step i s))
  end.

Inductive Job : Type :=
  | do_log_event (c : Call)
  | do_get_kpis.

Definition spawn (j : Job) : Thread :=
  match j with
  | do_log_event c => writer c Waiting
  | do_get_kpis => reader None
  end.

(** A logger right after construction and one thread per job, none of
    which has run yet. *)
Definition init (log_file : string) (existing : option (list Row)) (jobs : list Job)
    : State :=
  mk None (fresh log_file existing) (map spawn jobs).

(** Reader [j] has seen the dictionary [m]. *)
Definition seen (s : State) (j : nat) (m : gmap string Z) : Prop :=
  threads s !! j = Some (reader (Some m)).

(** The row a call writes. *)
Definition row_of (c : Call) : Row :=
  mkRow (c_time c) (c_station c) (c_part c) (c_activity c).

(** A thread that is inside the critical section holds the lock. *)
Definition exclusive (s : State) : Prop :=
  forall j th, threads s !! j = Some th -> inside th = true -> lock s = Some j.

(** How the counters stand to the rows written since construction, of
    which there were [base] before.  With the lock free they count exactly
    those rows.  While a writer is inside they lag behind by what that
    writer has not yet done: its row once it is written, and the station's
    counter once [total_parts] is incremented. *)
Definition settled (base : nat) (s : State) : Prop :=
  let new := drop base (rows (logger s)) in
  let m := kpis (logger s) in
  match lock s with
  | None => counts m new
  | Some i =>
      match threads s !! i with
      | Some (writer c Locked) | Some (writer c Leaving) => counts m new
      | Some (writer c Written) =>
          exists old, new = old ++ [row_of c] /\ counts m old
      | Some (writer c Counted) =>
          exists old, new = old ++ [row_of c] /\ c_activity c = "EXIT" /\
            m !! "total_parts" = Some (tally is_exit new) /\
            m !! "station1_count" = Some (tally (is_exit_of "S1") old) /\
            m !! "station2_count" = Some (tally (is_exit_of "S2") old)
      | _ => False
      end
  end.

Definition consistent (base : nat) (s : State) : Prop :=
  (base <= length (rows (logger s)))%nat /\ exclusive s /\ settled base s.

(** One station logging the EXIT of a part while another thread reads the
    counters. *)
Definition exit_call : Call := mkCall "2026-01-01 10:00:09" None "04a1b2" "S1" "EXIT".
Definition writer_and_reader : State :=
  init "data/events.csv" None [do_log_event exit_call; do_get_kpis].


(** A thread that has run its call to the end. *)
Definition finished (th : Thread) : bool :=
  match th with
  | writer _ (Finished _) => true
  | reader (Some _) => true
  | _ => false
  end.

End Concurrent.

(** * Properties *)

(** ** The monad *)

Lemma bind_ok {S A B} (c : M S A) (f : A -> M S B) s a s' :
  c s = (Ok a, s') -> (c ≫= f) s = f a s'.
Proof. intros H. unfold mbind, M_bind. by rewrite H. Qed.

Lemma bind_raise {S A B} (c : M S A) (f : A -> M S B) s e s' :
  c s = (Raise e, s') -> (c ≫= f) s = (Raise e, s').
Proof. intros H. unfold mbind, M_bind. by rewrite H. Qed.

Section WP.
Context {S : Type}.

Lemma wp_ret {A} (a : A) Q X (s : S) : Q a s -> wp (mret a) Q X s.
Proof. done. Qed.

Lemma wp_bind {A B} (c : M S A) (f : A -> M S B) Q X s :
  wp c (fun a => wp (f a) Q X) X s -> wp (c ≫= f) Q X s.
Proof. unfold wp, mbind, M_bind. by destruct (c s) as [[a|e] s']. Qed.

Lemma wp_get Q X (s : S) : Q s s -> wp get Q X s.
Proof. done. Qed.

Lemma wp_modify (f : S -> S) Q X s : Q tt (f s) -> wp (modify f) Q X s.
Proof. done. Qed.

Lemma wp_raise {A} e (Q : A -> S -> Prop) X s : X e s -> wp (raise e) Q X s.
Proof. done. Qed.

Lemma wp_try_except {A} (c : M S A) h Q X s :
  wp c Q (fun e => wp (h e) Q X) s -> wp (try_except c h) Q X s.
Proof. unfold wp, try_except. by destruct (c s) as [[a|e] s']. Qed.

Lemma wp_mono {A} (c : M S A) (Q Q' : A -> S -> Prop) (X X' : exn -> S -> Prop) s :
  (forall a s', Q a s' -> Q' a s') -> (forall e s', X e s' -> X' e s') ->
  wp c Q X s -> wp c Q' X' s.
Proof. unfold wp. destruct (c s) as [[a|e] s']; auto. Qed.

(** A computation that cannot raise returns. *)
Lemma wp_returns {A} (c : M S A) Q s :
  wp c Q (fun _ _ => False) s -> exists a s', c s = (Ok a, s') /\ Q a s'.
Proof. unfold wp. destruct (c s) as [[a|e] s']; [eauto | done]. Qed.

Lemma wp_run {A} (c : M S A) Q X s :
  wp c Q X s ->
  match c s with (Ok a, s') => Q a s' | (Raise e, s') => X e s' end.
Proof. done. Qed.
End WP.

Lemma wp_zoom {S T A} (proj : S -> T) (upd : T -> S -> S) (c : M T A) Q X s :
  wp c (fun a t => Q a (upd t s)) (fun e t => X e (upd t s)) (proj s) ->
  wp (zoom proj upd c) Q X s.
Proof. unfold wp, zoom. by destruct (c (proj s)) as [[a|e] t]. Qed.

(** Take the next statement of a computation apart. *)
Ltac wp_step :=
  lazymatch goal with
  | |- wp (mbind _ _) _ _ _ => apply wp_bind
  | |- wp (mret _) _ _ _ => apply wp_ret
  | |- wp get _ _ _ => apply wp_get
  | |- wp (modify _) _ _ _ => apply wp_modify
  | |- wp (raise _) _ _ _ => apply wp_raise
  | |- wp (try_except _ _) _ _ _ => apply wp_try_except
  end.

(** ** The data logger *)

Module DataLoggerFacts.
Import DataLogger.

Lemma fresh_kpis log_file existing : kpis (fresh log_file existing) = initial_kpis.
Proof. by destruct existing. Qed.

Lemma fresh_rows log_file existing :
  rows (fresh log_file existing) = default [header] existing.
Proof. by destruct existing. Qed.

Lemma increment_present k v d :
  kpis d !! k = Some v ->
  increment k d = (Ok tt, set_kpis (fun m => <[k := v + 1]> m) d).
Proof. intros H. unfold increment, mbind, M_bind, get. by rewrite H. Qed.

Lemma increment_absent k d :
  kpis d !! k = None -> increment k d = (Raise KeyError, d).
Proof. intros H. unfold increment, mbind, M_bind, get. by rewrite H. Qed.

Lemma write_row_spec ts pid sid act d :
  write_row ts pid sid act d =
    (Ok tt, log INFO ("Event: " +:+ ts +:+ " | " +:+ sid +:+ " | " +:+ pid +:+ " | " +:+ act)
              (set_rows (fun r => r ++ [mkRow ts sid pid act]) d)).
Proof. reflexivity. Qed.

Lemma count_station_spec sid d :
  has_counters (kpis d) ->
  count_station sid d =
    (Ok tt,
     if String.eqb sid "S1"
     then set_kpis (fun m => <["station1_count" := default 0 (kpis d !! "station1_count") + 1]> m) d
     else if String.eqb sid "S2"
     then set_kpis (fun m => <["station2_count" := default 0 (kpis d !! "station2_count") + 1]> m) d
     else d).
Proof.
  intros (_ & [s1 H1] & [s2 H2]). unfold count_station.
  destruct (String.eqb sid "S1"); [|destruct (String.eqb sid "S2")].
  - by rewrite (increment_present _ _ _ H1), H1.
  - by rewrite (increment_present _ _ _ H2), H2.
  - reflexivity.
Qed.

Lemma set_kpis_has_counters k v d :
  has_counters (kpis d) -> has_counters (kpis (set_kpis (fun m => <[k := v]> m) d)).
Proof.
  intros (H0 & H1 & H2). unfold has_counters. simpl.
  rewrite !lookup_insert_is_Some'. auto.
Qed.

(** The counters after [_update_kpis]; the dictionary needs its counters
    only when there is something to count. *)
Lemma update_kpis_spec sid act d :
  (act = "EXIT" -> has_counters (kpis d)) ->
  exists d', _update_kpis sid act d = (Ok tt, d') /\
             kpis d' = counted sid act (kpis d) /\
             rows d' = rows d /\ console d' = console d.
Proof.
  intros Hc. unfold _update_kpis, counted.
  destruct (String.eqb_spec act "EXIT") as [Hact|_]; [|by exists d].
  destruct (Hc Hact) as ([t Ht] & H12).
  erewrite bind_ok; [|by apply increment_present].
  rewrite count_station_spec.
  2:{ apply set_kpis_has_counters. split; eauto. }
  rewrite Ht. simpl.
  eexists; split; [reflexivity|].
  destruct (String.eqb sid "S1"); [|destruct (String.eqb sid "S2")]; simpl;
    rewrite ?lookup_insert_ne by done; done.
Qed.

Lemma counted_has_counters sid act m :
  has_counters m -> has_counters (counted sid act m).
Proof.
  intros (H0 & H1 & H2). unfold counted, has_counters.
  destruct (String.eqb act "EXIT"); [|done].
  destruct (String.eqb sid "S1"); [|destruct (String.eqb sid "S2")];
    rewrite !lookup_insert_is_Some'; auto 10.
Qed.

(** [log_event] when the file could be opened. *)
Lemma log_event_spec ts pid sid act d :
  (act = "EXIT" -> has_counters (kpis d)) ->
  exists d', log_event ts None pid sid act d = (Ok tt, d') /\
             kpis d' = counted sid act (kpis d) /\
             rows d' = rows d ++ [mkRow ts sid pid act].
Proof.
  intros Hc. unfold log_event.
  erewrite bind_ok; [|apply write_row_spec].
  edestruct (update_kpis_spec sid act) as (d' & -> & Hk & Hr & _); [|exists d'; eauto].
  done.
Qed.

(** [log_event] when opening the file fails: nothing is written or
    counted. *)
Lemma log_event_io_error ts e pid sid act d :
  log_event ts (Some e) pid sid act d = (Raise e, d).
Proof. reflexivity. Qed.

Lemma call_has_counters c d :
  has_counters (kpis d) -> has_counters (kpis (snd (call c d))).
Proof.
  intros Hc. unfold call. destruct (c_io c) as [e|]; [done|].
  destruct (log_event_spec (c_time c) (c_part c) (c_station c) (c_activity c) d
              (fun _ => Hc)) as (d' & -> & Hk & _).
  simpl. rewrite Hk. by apply counted_has_counters.
Qed.

Lemma initial_has_counters : has_counters initial_kpis.
Proof. unfold has_counters. repeat split; eexists; reflexivity. Qed.

Lemma after_has_counters cs d :
  has_counters (kpis d) -> has_counters (kpis (after cs d)).
Proof.
  revert d. induction cs as [|c cs IH]; intros d Hd; [done|].
  simpl. apply IH. by apply call_has_counters.
Qed.

Lemma counted_balanced sid act m :
  sid = "S1" \/ sid = "S2" -> balanced m -> balanced (counted sid act m).
Proof.
  intros Hs (s1 & s2 & H1 & H2 & Ht). unfold counted.
  destruct (String.eqb act "EXIT"); [|by exists s1, s2].
  rewrite Ht, H1, H2. simpl.
  destruct Hs as [-> | ->]; simpl.
  - exists (s1 + 1), s2. rewrite lookup_insert_eq, !lookup_insert_ne, H2 by done.
    rewrite lookup_insert_eq. repeat split; f_equal; lia.
  - exists s1, (s2 + 1). rewrite lookup_insert_eq, !lookup_insert_ne, H1 by done.
    rewrite lookup_insert_eq. repeat split; f_equal; lia.
Qed.

Lemma balanced_has_counters m : balanced m -> has_counters m.
Proof. intros (s1 & s2 & H1 & H2 & Ht). unfold has_counters. eauto. Qed.

Lemma call_balanced c d :
  c_station c = "S1" \/ c_station c = "S2" ->
  balanced (kpis d) -> balanced (kpis (snd (call c d))).
Proof.
  intros Hs Hb. unfold call. destruct (c_io c) as [e|]; [done|].
  destruct (log_event_spec (c_time c) (c_part c) (c_station c) (c_activity c) d)
    as (d' & -> & Hk & _); [by intros _; apply balanced_has_counters|].
  simpl. rewrite Hk. by apply counted_balanced.
Qed.

Lemma initial_balanced : balanced initial_kpis.
Proof. exists 0, 0. by vm_compute. Qed.

Lemma after_balanced cs d :
  Forall (fun c => c_station c = "S1" \/ c_station c = "S2") cs ->
  balanced (kpis d) -> balanced (kpis (after cs d)).
Proof.
  revert d. induction cs as [|c cs IH]; intros d Hcs Hd; [done|].
  inversion Hcs; subst. simpl. apply IH; [done|]. by apply call_balanced.
Qed.

(** C3.  Two stations, "S1" and "S2", log to one data logger that was
    just constructed.  After any number of the [log_event] calls made,
    whether they returned or raised, the counters satisfy
    [total_parts == station1_count + station2_count]. *)
Theorem total_parts_is_station_sum log_file existing (cs : list Call) (n : nat) :
  Forall (fun c => c_station c = "S1" \/ c_station c = "S2") cs ->
  balanced (kpis (after (take n cs) (fresh log_file existing))).
Proof.
  intros Hcs. apply after_balanced.
  - by apply Forall_take.
  - rewrite fresh_kpis. apply initial_balanced.
Qed.

Lemma total_parts_is_station_sum_witness :
  balanced (kpis (after (take 4 two_exits) (fresh "data/events.csv" None))).
Proof.
  apply (total_parts_is_station_sum "data/events.csv" None two_exits 4).
  unfold two_exits. repeat (constructor; [simpl; auto|]). constructor.
Defined.

(** C5.  Take any logger reached from construction by [log_event] calls
    and one more call that returns.  If its activity is not "EXIT" the
    counters are as before.  If it is "EXIT", [total_parts] is one more,
    [station1_count] is one more exactly when the station is "S1",
    [station2_count] is one more exactly when the station is "S2", and
    every other key keeps its value. *)
Theorem log_event_counter_effect log_file existing (cs : list Call)
    (timestamp part_id station_id activity : string) :
  let d := after cs (fresh log_file existing) in
  exists d' t s1 s2,
    log_event timestamp None part_id station_id activity d = (Ok tt, d') /\
    kpis d !! "total_parts" = Some t /\
    kpis d !! "station1_count" = Some s1 /\
    kpis d !! "station2_count" = Some s2 /\
    (activity <> "EXIT" -> kpis d' = kpis d) /\
    (activity = "EXIT" ->
       kpis d' !! "total_parts" = Some (t + 1) /\
       kpis d' !! "station1_count" = Some (if decide (station_id = "S1") then s1 + 1 else s1) /\
       kpis d' !! "station2_count" = Some (if decide (station_id = "S2") then s2 + 1 else s2) /\
       forall k, k <> "total_parts" -> k <> "station1_count" -> k <> "station2_count" ->
                 kpis d' !! k = kpis d !! k).
Proof.
  intros d.
  assert (Hc : has_counters (kpis d)).
  { apply after_has_counters. rewrite fresh_kpis. apply initial_has_counters. }
  destruct (log_event_spec timestamp part_id station_id activity d (fun _ => Hc))
    as (d' & Hrun & Hk & _).
  destruct Hc as ([t Ht] & [s1 H1] & [s2 H2]).
  exists d', t, s1, s2. split_and!; try done.
  - intros Hne. rewrite Hk. unfold counted.
    apply String.eqb_neq in Hne. by rewrite Hne.
  - intros ->. rewrite Hk. unfold counted. simpl. split_and!.
    + destruct (String.eqb station_id "S1"), (String.eqb station_id "S2");
        rewrite ?lookup_insert_ne by done; by rewrite lookup_insert_eq, Ht.
    + destruct (String.eqb_spec station_id "S1") as [->|Hn1].
      * by rewrite lookup_insert_eq, H1.
      * rewrite decide_False by done.
        destruct (String.eqb station_id "S2"); by rewrite !lookup_insert_ne.
    + destruct (String.eqb_spec station_id "S1") as [->|Hn1].
      * by rewrite !lookup_insert_ne.
      * destruct (String.eqb_spec station_id "S2") as [->|Hn2].
        -- by rewrite lookup_insert_eq, H2.
        -- rewrite decide_False by done. by rewrite !lookup_insert_ne.
    + intros k ? ? ?.
      destruct (String.eqb station_id "S1"), (String.eqb station_id "S2");
        by rewrite !lookup_insert_ne.
Qed.

End DataLoggerFacts.
(** ** The sensor reader *)

Module SensorReaderFacts.
Import SensorReader.

Lemma wp_hwcall hw c Q X (s : t) :
  match hw c with Some e => X e s | None => Q tt s end ->
  wp (hwcall hw c) Q X s.
Proof. unfold wp, hwcall. by destruct (hw c). Qed.

Ltac hw_step hw :=
  first
    [ wp_step
    | lazymatch goal with
      | |- wp (hwcall hw ?c) _ _ _ =>
          let H := fresh "Hhw" in
          apply wp_hwcall; destruct (hw c) as [?e|] eqn:H
      end ].

Ltac hw_facts hw :=
  repeat match goal with H : hw _ = _ |- _ => rewrite H; clear H end.

(** The exception that leaves [live_init] is the one a hardware call
    raised. *)
Lemma live_init_raises hw s e s' :
  live_init hw s = (Raise e, s') -> exists c, c ∈ live_calls /\ hw c = Some e.
Proof.
  intros Hrun.
  assert (wp (live_init hw) (fun _ _ => True)
            (fun e _ => exists c, c ∈ live_calls /\ hw c = Some e) s) as Hwp.
  { clear. unfold live_init, live_calls, PI_PINS, MCP_PIN_MAP.
    cbn [for_each map flat_map app].
    repeat hw_step hw; try exact I.
    all: eexists; split; [|eassumption].
    all: apply (bool_decide_unpack _); vm_compute; exact I. }
  unfold wp in Hwp. by rewrite Hrun in Hwp.
Qed.

(** [live_init] raises exactly when one of its hardware calls fails, and
    it leaves [self.simulation] alone. *)
Lemma live_init_outcome hw s :
  wp (live_init hw)
     (fun _ s' => simulation s' = simulation s /\ existsb (fails hw) live_calls = false)
     (fun e s' => simulation s' = simulation s /\ existsb (fails hw) live_calls = true)
     s.
Proof.
  unfold live_init, live_calls, PI_PINS, MCP_PIN_MAP.
  cbn [for_each map flat_map app existsb]. unfold fails.
  repeat hw_step hw.
  all: split; [reflexivity|].
  all: hw_facts hw; reflexivity.
Qed.

(** The module-level [try: import ...]: every import succeeding makes
    the hardware available, and the three classes the [except] clause
    lists make it unavailable without an exception leaving the module. *)
Lemma import_hardware_caught imports :
  imports ∈ [None; Some ImportError; Some NotImplementedError; Some RuntimeError] ->
  exists available, import_hardware imports = Ok available.
Proof.
  rewrite !elem_of_cons, elem_of_nil.
  intros [->|[->|[->|[->|[]]]]]; eexists; reflexivity.
Qed.

(** C8.  The constructor returns whatever the hardware does: for every
    behaviour [hw] of the GPIO, I2C and expander calls and both values
    of the [simulation] argument and of [HARDWARE_AVAILABLE], [__init__]
    ends normally.  The reader is in simulation mode exactly when it was
    asked to be, the libraries are missing, or one of the calls of the
    live initialisation failed; in the last case the failure and the
    fallback are logged as errors.  Missing libraries ([ImportError] at
    import) make [HARDWARE_AVAILABLE] false without raising. *)
Theorem constructor_never_raises (hw : Hardware) (HARDWARE_AVAILABLE simulation_arg : bool)
    (before : t) :
  import_hardware (Some ImportError) = Ok false /\
  exists r,
    __init__ hw HARDWARE_AVAILABLE simulation_arg before = (Ok tt, r) /\
    simulation r
      = simulation_arg || negb HARDWARE_AVAILABLE || existsb (fails hw) live_calls /\
    (simulation_arg || negb HARDWARE_AVAILABLE = false ->
     existsb (fails hw) live_calls = true ->
     exists e c, c ∈ live_calls /\ hw c = Some e /\
       (ERROR, "Failed to initialize hardware: " +:+ str e) ∈ console r /\
       (ERROR, "Falling back to simulation mode") ∈ console r).
Proof.
  split; [reflexivity|].
  unfold __init__.
  erewrite bind_ok by reflexivity. erewrite bind_ok by reflexivity.
  cbn [simulation].
  destruct (simulation_arg || negb HARDWARE_AVAILABLE) eqn:Hsim; cbn [negb].
  - eexists. split; [reflexivity|]. split; [done|]. done.
  - pose proof (live_init_outcome hw (mk false false ∅ [])) as Hlive.
    unfold wp in Hlive. unfold try_except.
    destruct (live_init hw (mk false false ∅ [])) as [[[]|e] s'] eqn:Hrun.
    + destruct Hlive as [Hs Hnone]. eexists. split; [reflexivity|].
      split; [by rewrite Hs, Hnone|]. intros _. by rewrite Hnone.
    + destruct Hlive as [Hs Hsome]. eexists. split; [reflexivity|].
      split; [by rewrite Hsome|]. intros _ _.
      destruct (live_init_raises hw _ _ _ Hrun) as (c & Hc & Hhw).
      exists e, c. split; [done|]. split; [done|].
      cbn. rewrite !elem_of_app, !list_elem_of_singleton. auto.
Qed.

End SensorReaderFacts.

(** ** Threads on one data logger *)

Module ConcurrentFacts.
Import DataLogger Concurrent.

Lemma tally_snoc f rs r :
  tally f (rs ++ [r]) = tally f rs + (if f r then 1 else 0).
Proof.
  unfold tally. rewrite filter_app, length_app.
  rewrite filter_cons, filter_nil. case_decide as Hf.
  - rewrite Hf. simpl. lia.
  - destruct (f r); [done|]. simpl. lia.
Qed.

Lemma lookup_update (l : list Thread) i j x th0 th :
  l !! i = Some th0 -> <[i := x]> l !! j = Some th ->
  (j = i /\ th = x) \/ (j <> i /\ l !! j = Some th).
Proof.
  intros Hi Hj. destruct (decide (j = i)) as [->|Hne].
  - rewrite list_lookup_insert_eq in Hj by (by eapply lookup_lt_Some).
    left. split; congruence.
  - rewrite list_lookup_insert_ne in Hj by done. by right.
Qed.

Lemma lookup_updated (l : list Thread) i x th0 :
  l !! i = Some th0 -> <[i := x]> l !! i = Some x.
Proof. intros Hi. apply list_lookup_insert_eq. by eapply lookup_lt_Some. Qed.

(** A thread that steps outside the critical section, leaving lock and
    logger alone, keeps everything consistent. *)
Lemma consistent_outside base s i th0 th :
  consistent base s -> threads s !! i = Some th0 ->
  inside th0 = false -> inside th = false ->
  consistent base (mk (lock s) (logger s) (<[i := th]> (threads s))).
Proof.
  intros (Hbase & Hex & Hset) Hi Hout0 Hout. split_and!; [done| |].
  - intros j thj Hj Hin. cbn in *.
    destruct (lookup_update _ _ _ _ _ _ Hi Hj) as [[-> ->]|[Hne Hj']]; [congruence|].
    by eapply Hex.
  - unfold settled in *. cbn in *. destruct (lock s) as [k|]; [|done].
    destruct (decide (k = i)) as [->|Hne].
    + rewrite Hi in Hset. by destruct th0 as [c []|].
    + by rewrite list_lookup_insert_ne.
Qed.

Lemma exclusive_enter s i d th0 th :
  exclusive s -> lock s = None -> threads s !! i = Some th0 ->
  exclusive (mk (Some i) d (<[i := th]> (threads s))).
Proof.
  intros Hex Hfree Hi j thj Hj Hin. cbn in *.
  destruct (lookup_update _ _ _ _ _ _ Hi Hj) as [[-> ->]|[Hne Hj']]; [done|].
  specialize (Hex _ _ Hj' Hin). congruence.
Qed.

Lemma exclusive_stay s i d th0 th :
  exclusive s -> lock s = Some i -> threads s !! i = Some th0 ->
  exclusive (mk (Some i) d (<[i := th]> (threads s))).
Proof.
  intros Hex Hheld Hi j thj Hj Hin. cbn in *.
  destruct (lookup_update _ _ _ _ _ _ Hi Hj) as [[-> ->]|[Hne Hj']]; [done|].
  specialize (Hex _ _ Hj' Hin). congruence.
Qed.

Lemma exclusive_leave s i d th0 th :
  exclusive s -> lock s = Some i -> threads s !! i = Some th0 -> inside th = false ->
  exclusive (mk None d (<[i := th]> (threads s))).
Proof.
  intros Hex Hheld Hi Hout j thj Hj Hin. cbn in *.
  destruct (lookup_update _ _ _ _ _ _ Hi Hj) as [[-> ->]|[Hne Hj']]; [congruence|].
  specialize (Hex _ _ Hj' Hin). congruence.
Qed.

Lemma is_exit_row c : is_exit (row_of c) = String.eqb (c_activity c) "EXIT".
Proof. done. Qed.

Lemma is_exit_of_row sid c :
  is_exit_of sid (row_of c) = String.eqb (c_activity c) "EXIT" && String.eqb (c_station c) sid.
Proof. done. Qed.

(** Every step keeps the state consistent. *)
Lemma step_consistent base i s s' :
  step i s = Some s' -> consistent base s -> consistent base s'.
Proof.
  unfold step. intros Hstep Hcons.
  destruct (threads s !! i) as [[c at_pc|[m|]]|] eqn:Hi; try done.
  2:{ injection Hstep as <-. by eapply consistent_outside. }
  destruct Hcons as (Hbase & Hex & Hset).
  destruct at_pc as [| | | | |r]; try done.
  - (* Waiting *)
    destruct (lock s) eqn:Hlock; [done|]. injection Hstep as <-.
    split_and!; [done|by eapply exclusive_enter|].
    unfold settled in *. cbn. rewrite Hlock in Hset.
    by rewrite (lookup_updated _ _ _ _ Hi).
  - (* Locked *)
    assert (lock s = Some i) as Hlock by (by eapply Hex).
    unfold settled in Hset. rewrite Hlock, Hi in Hset.
    injection Hstep as <-. unfold advance.
    destruct (c_io c) as [e|]; [cbn|rewrite DataLoggerFacts.write_row_spec; cbn].
    + split_and!; [done|by eapply exclusive_leave|done].
    + rewrite Hlock. split_and!.
      * cbn. rewrite length_app. lia.
      * by eapply exclusive_stay.
      * unfold settled. cbn. rewrite (lookup_updated _ _ _ _ Hi).
        exists (drop base (rows (logger s))). split; [|done].
        by rewrite drop_app_le.
  - (* Written *)
    assert (lock s = Some i) as Hlock by (by eapply Hex).
    unfold settled in Hset. rewrite Hlock, Hi in Hset.
    destruct Hset as (old & Hnew & Ht & H1 & H2).
    destruct (String.eqb_spec (c_activity c) "EXIT") as [Hact|Hact];
      injection Hstep as <-; unfold advance.
    + rewrite (DataLoggerFacts.increment_present _ _ _ Ht), Hlock.
      split_and!; [done|by eapply exclusive_stay|].
      unfold settled. cbn. rewrite (lookup_updated _ _ _ _ Hi).
      exists old. split_and!; try done.
      * rewrite lookup_insert_eq, Hnew, tally_snoc, is_exit_row, Hact. done.
      * by rewrite lookup_insert_ne.
      * by rewrite lookup_insert_ne.
    + cbn. rewrite Hlock. split_and!; [done|by eapply exclusive_stay|].
      unfold settled. cbn. rewrite (lookup_updated _ _ _ _ Hi).
      apply String.eqb_neq in Hact.
      unfold counts. rewrite Hnew, !tally_snoc, is_exit_row, !is_exit_of_row, Hact. cbn.
      by rewrite !Z.add_0_r.
  - (* Counted *)
    assert (lock s = Some i) as Hlock by (by eapply Hex).
    unfold settled in Hset. rewrite Hlock, Hi in Hset.
    destruct Hset as (old & Hnew & Hact & Ht & H1 & H2).
    injection Hstep as <-. unfold advance, count_station.
    destruct (String.eqb_spec (c_station c) "S1") as [Hs1|Hs1];
      [|destruct (String.eqb_spec (c_station c) "S2") as [Hs2|Hs2]].
    + rewrite (DataLoggerFacts.increment_present _ _ _ H1), Hlock.
      split_and!; [done|by eapply exclusive_stay|].
      unfold settled. cbn. rewrite (lookup_updated _ _ _ _ Hi).
      unfold counts. rewrite lookup_insert_eq, !lookup_insert_ne by done.
      rewrite Ht, H2, Hnew, !tally_snoc, !is_exit_of_row, Hact, Hs1. cbn.
      by rewrite Z.add_0_r.
    + rewrite (DataLoggerFacts.increment_present _ _ _ H2), Hlock.
      split_and!; [done|by eapply exclusive_stay|].
      unfold settled. cbn. rewrite (lookup_updated _ _ _ _ Hi).
      unfold counts. rewrite lookup_insert_eq, !lookup_insert_ne by done.
      rewrite Ht, H1, Hnew, !tally_snoc, !is_exit_of_row, Hact, Hs2. cbn.
      by rewrite Z.add_0_r.
    + cbn. rewrite Hlock. split_and!; [done|by eapply exclusive_stay|].
      unfold settled. cbn. rewrite (lookup_updated _ _ _ _ Hi).
      unfold counts. rewrite Ht, H1, H2, Hnew, !tally_snoc, !is_exit_of_row, Hact.
      apply String.eqb_neq in Hs1, Hs2. rewrite Hs1, Hs2. cbn.
      by rewrite !Z.add_0_r.
  - (* Leaving *)
    assert (lock s = Some i) as Hlock by (by eapply Hex).
    unfold settled in Hset. rewrite Hlock, Hi in Hset.
    injection Hstep as <-.
    split_and!; [done|by eapply exclusive_leave|done].
Qed.


Lemma exec_app l1 l2 s : exec (l1 ++ l2) s = exec l2 (exec l1 s).
Proof. revert s. induction l1 as [|i l1 IH]; intros s; [done|]. cbn. apply IH. Qed.

Lemma exec_consistent base schedule s :
  consistent base s -> consistent base (exec schedule s).
Proof.
  revert s. induction schedule as [|i schedule IH]; intros s Hs; [done|].
  cbn. apply IH. destruct (step i s) as [s'|] eqn:Hstep; [|done].
  by eapply step_consistent.
Qed.

Lemma spawn_outside j : inside (spawn j) = false.
Proof. by destruct j. Qed.

Lemma init_consistent log_file existing jobs :
  consistent (length (rows (fresh log_file existing))) (init log_file existing jobs).
Proof.
  split_and!; [done| |].
  - intros j th Hj Hin. cbn in Hj. rewrite list_lookup_fmap in Hj.
    destruct (jobs !! j) as [job|]; [|done]. injection Hj as <-.
    by rewrite spawn_outside in Hin.
  - unfold settled. cbn. rewrite drop_all, DataLoggerFacts.fresh_kpis. by vm_compute.
Qed.

(** The counters leave the rows alone. *)
Lemma increment_rows k d : rows (snd (increment k d)) = rows d.
Proof.
  unfold increment, mbind, M_bind, get. by destruct (kpis d !! k).
Qed.

Lemma count_station_rows sid d : rows (snd (count_station sid d)) = rows d.
Proof.
  unfold count_station.
  destruct (String.eqb sid "S1"); [apply increment_rows|].
  destruct (String.eqb sid "S2"); [apply increment_rows|done].
Qed.

Lemma advance_threads i s c body next :
  exists at_pc, threads (advance i s c body next) = <[i := writer c at_pc]> (threads s).
Proof. unfold advance. destruct (body (logger s)) as [[[]|e] d]; by eexists. Qed.

Lemma advance_rows i s c body next :
  rows (logger (advance i s c body next)) = rows (snd (body (logger s))).
Proof. unfold advance. by destruct (body (logger s)) as [[[]|e] d]. Qed.

(** A step changes one thread and keeps the call a writer runs; the only
    change to the file is the row of the stepping writer, appended whole. *)
Lemma step_threads i s s' j c at_pc :
  step i s = Some s' -> threads s' !! j = Some (writer c at_pc) ->
  exists at_pc', threads s !! j = Some (writer c at_pc').
Proof.
  unfold step. intros Hstep Hj.
  destruct (threads s !! i) as [th|] eqn:Hi; [|done].
  assert (exists th', threads s' = <[i := th']> (threads s) /\
            forall c' pc', th' = writer c' pc' -> exists pc0, th = writer c' pc0)
    as (th' & Hth & Hcall).
  { destruct th as [c0 pc0|[m|]]; [|done|injection Hstep as <-; by eexists].
    destruct pc0; try done; repeat case_match; try done; injection Hstep as <-;
      try (edestruct advance_threads as [pc1 ->]);
      eexists; (split; [reflexivity|]); intros ? ? [= <- <-]; eauto. }
  rewrite Hth in Hj.
  destruct (lookup_update _ _ _ _ _ _ Hi Hj) as [[-> Heq]|[_ Hj']]; [|by eexists].
  destruct (Hcall _ _ (eq_sym Heq)) as [pc0 ->]. by eexists.
Qed.

Lemma step_rows i s s' :
  step i s = Some s' ->
  rows (logger s') = rows (logger s) \/
  exists c at_pc, threads s !! i = Some (writer c at_pc) /\
                  rows (logger s') = rows (logger s) ++ [row_of c].
Proof.
  unfold step. intros Hstep.
  destruct (threads s !! i) as [[c0 pc0|[m|]]|] eqn:Hi; try done.
  2:{ injection Hstep as <-. by left. }
  destruct pc0; try done; repeat case_match; try done; injection Hstep as <-;
    rewrite ?advance_rows, ?increment_rows, ?count_station_rows; cbn; eauto.
Qed.

(** What a reader has seen is the dictionary as it was when it read. *)
Lemma step_seen i s s' j m :
  step i s = Some s' -> seen s' j m -> seen s j m \/ m = kpis (logger s).
Proof.
  unfold step, seen. intros Hstep Hj.
  destruct (threads s !! i) as [th|] eqn:Hi; [|done].
  destruct th as [c0 pc0|[m0|]]; [|done|].
  - assert (exists pc1, threads s' = <[i := writer c0 pc1]> (threads s)) as (pc1 & Hth).
    { destruct pc0; try done; repeat case_match; try done; injection Hstep as <-;
        try (edestruct advance_threads as [pc1 ->]); by eexists. }
    rewrite Hth in Hj.
    destruct (lookup_update _ _ _ _ _ _ Hi Hj) as [[-> Heq]|[_ Hj']]; [done|by left].
  - injection Hstep as <-. cbn in Hj.
    destruct (lookup_update _ _ _ _ _ _ Hi Hj) as [[-> Heq]|[_ Hj']]; [|by left].
    right. by injection Heq as ->.
Qed.


(** The rows written since construction are rows of the jobs. *)
Lemma exec_rows (jobs : list Job) base_rows schedule s :
  (forall j c at_pc, threads s !! j = Some (writer c at_pc) -> do_log_event c ∈ jobs) ->
  (exists new, rows (logger s) = base_rows ++ new /\
               Forall (fun r => exists c, do_log_event c ∈ jobs /\ r = row_of c) new) ->
  exists new, rows (logger (exec schedule s)) = base_rows ++ new /\
              Forall (fun r => exists c, do_log_event c ∈ jobs /\ r = row_of c) new.
Proof.
  revert s. induction schedule as [|i schedule IH]; intros s Hjobs Hrows; [done|].
  cbn. destruct (step i s) as [s'|] eqn:Hstep; [|by apply IH].
  apply IH; cbn.
  - intros j c at_pc Hj.
    destruct (step_threads _ _ _ _ _ _ Hstep Hj) as [at_pc' Hj']. by eapply Hjobs.
  - destruct Hrows as (new & Hnew & Hall).
    destruct (step_rows _ _ _ Hstep) as [Hsame|(c & at_pc & Hi & Hadd)].
    { exists new. by rewrite Hsame. }
    exists (new ++ [row_of c]). split; [by rewrite Hadd, Hnew, app_assoc|].
    apply Forall_app. split; [done|]. constructor; [|done].
    exists c. split; [by eapply Hjobs|done].
Qed.

Lemma init_jobs log_file existing (jobs : list Job) j c at_pc :
  threads (init log_file existing jobs) !! j = Some (writer c at_pc) ->
  do_log_event c ∈ jobs.
Proof.
  cbn. rewrite list_lookup_fmap. destruct (jobs !! j) as [[c'|]|] eqn:Hj; try done.
  intros [= <- _]. by eapply list_elem_of_lookup_2.
Qed.

(** Every dictionary a reader holds is the one the logger had at some
    moment of the run. *)
Lemma exec_seen s0 schedule j m :
  (forall j m, ~ seen s0 j m) ->
  seen (exec schedule s0) j m ->
  exists before, before `prefix_of` schedule /\ m = kpis (logger (exec before s0)).
Proof.
  intros Hnone. revert j m. induction schedule as [|i schedule IH] using rev_ind;
    intros j m Hseen; [by apply Hnone in Hseen|].
  rewrite exec_app in Hseen. cbn in Hseen.
  destruct (step i (exec schedule s0)) as [s'|] eqn:Hstep; cbn in Hseen.
  - destruct (step_seen _ _ _ _ _ Hstep Hseen) as [Hold| ->].
    + destruct (IH _ _ Hold) as (before & Hpre & ->).
      exists before. split; [by apply prefix_app_r|done].
    + exists schedule. split; [by apply prefix_app_r|done].
  - destruct (IH _ _ Hseen) as (before & Hpre & ->).
    exists before. split; [by apply prefix_app_r|done].
Qed.

Lemma init_unseen log_file existing jobs j m : ~ seen (init log_file existing jobs) j m.
Proof.
  unfold seen. cbn. rewrite list_lookup_fmap.
  by destruct (jobs !! j) as [[c'|]|].
Qed.

(** Run alone, a writer does what [log_event] does: the five statements
    executed one after the other leave the logger as the call does, with the
    same result, and the lock free again. *)
Lemma lone_writer c d :
  exec [0; 0; 0; 0; 0]%nat (mk None d [writer c Waiting])
  = mk None (snd (call c d)) [writer c (Finished (fst (call c d)))].
Proof.
  pose (d1 := snd (write_row (c_time c) (c_part c) (c_station c) (c_activity c) d)).
  assert (write_row (c_time c) (c_part c) (c_station c) (c_activity c) d = (Ok tt, d1)) as Hrow
    by reflexivity.
  unfold call, log_event, _update_kpis.
  destruct (c_io c) as [e|] eqn:Hio.
  { cbn -[write_row increment count_station]. unfold advance. rewrite Hio. reflexivity. }
  unfold mbind at 1 2, M_bind at 1 2. rewrite Hrow.
  destruct (String.eqb (c_activity c) "EXIT") eqn:Hact.
  2:{ do 8 (cbn -[write_row increment count_station]; unfold advance;
            rewrite ?Hio, ?Hact, ?Hrow). reflexivity. }
  unfold mbind, M_bind.
  destruct (increment "total_parts" d1) as [[[]|e] d2] eqn:Hinc.
  2:{ do 8 (cbn -[write_row increment count_station]; unfold advance;
            rewrite ?Hio, ?Hact, ?Hrow, ?Hinc). reflexivity. }
  destruct (count_station (c_station c) d2) as [[[]|e] d3] eqn:Hcs.
  all: do 8 (cbn -[write_row increment count_station]; unfold advance;
            rewrite ?Hio, ?Hact, ?Hrow, ?Hinc, ?Hcs).
  all: reflexivity.
Qed.

(** C4, as the code has it.  Any number of threads call [log_event] and
    [get_kpis] on one data logger that was just constructed, and run
    statement by statement in any order.  At every moment at most one
    writer is inside the critical section.  Whenever the lock is free, the
    counters are those of the rows written since construction: [total_parts]
    is the number of EXIT rows, and each station counter the number of EXIT
    rows of its station.  Each of these rows is the row of one of the calls,
    written whole.  And what a reader got from [get_kpis] is the counter
    dictionary as it was at one moment of the run. *)
Theorem critical_section log_file existing (jobs : list Job) schedule :
  let s0 := init log_file existing jobs in
  let s := exec schedule s0 in
  let new := drop (length (rows (logger s0))) (rows (logger s)) in
  (forall i j thi thj,
     threads s !! i = Some thi -> threads s !! j = Some thj ->
     inside thi = true -> inside thj = true -> i = j) /\
  (lock s = None -> counts (kpis (logger s)) new) /\
  Forall (fun r => exists c, do_log_event c ∈ jobs /\ r = row_of c) new /\
  (forall j m, seen s j m ->
     exists before, before `prefix_of` schedule /\ m = kpis (logger (exec before s0))).
Proof.
  intros s0 s new.
  destruct (exec_consistent _ schedule _ (init_consistent log_file existing jobs))
    as (Hbase & Hex & Hset). fold s0 s in Hbase, Hex, Hset.
  split_and!.
  - intros i j thi thj Hi Hj Hini Hinj.
    pose proof (Hex _ _ Hi Hini). pose proof (Hex _ _ Hj Hinj). congruence.
  - intros Hfree. unfold settled in Hset. by rewrite Hfree in Hset.
  - destruct (exec_rows jobs (rows (logger s0)) schedule s0) as (rs & Hrs & Hall).
    + apply init_jobs.
    + exists []. by rewrite app_nil_r.
    + subst new. fold s in Hrs. by rewrite Hrs, drop_app_length.
  - intros j m. apply exec_seen. apply init_unseen.
Qed.

(** C4 as stated fails: station S1 logs an EXIT while another thread
    calls [get_kpis].  The writer takes the lock, writes its row and
    increments [total_parts]; the reader, which takes no lock, runs next
    and gets [total_parts = 1] with [station1_count = 0], a dictionary in
    which the total is not the sum of the stations. *)
Lemma reader_sees_half_an_update :
  let s := exec [0; 0; 0; 1]%nat writer_and_reader in
  exists m,
    seen s 1 m /\
    lock s = Some 0%nat /\
    m !! "total_parts" = Some 1 /\
    m !! "station1_count" = Some 0 /\
    m !! "station2_count" = Some 0 /\
    ~ balanced m.
Proof.
  eexists. split_and!; [vm_compute; reflexivity|vm_compute; reflexivity|
                        vm_compute; reflexivity ..|].
  intros (s1 & s2 & H1 & H2 & Ht). vm_compute in H1, H2, Ht.
  injection H1 as <-. injection H2 as <-. discriminate.
Qed.

Lemma critical_section_witness :
  let s := exec [0; 0; 0; 0; 0; 1]%nat writer_and_reader in
  counts (kpis (logger s)) (drop 1 (rows (logger s))).
Proof.
  apply (proj1 (proj2 (critical_section "data/events.csv" None
                         [do_log_event exit_call; do_get_kpis]
                         [0; 0; 0; 0; 0; 1]%nat))).
  vm_compute. reflexivity.
Defined.

End ConcurrentFacts.

(** ** The station controller *)

Module StationControllerFacts.
Import StationController.

Section Primitives.
Variable E : Env.

Lemma wp_extern c Q X w :
  Q (answer E (length (trace w)) c)
    (tick c (Z.max 0 (a_elapsed (answer E (length (trace w)) c))) w) ->
  wp (extern E c) Q X w.
Proof. done. Qed.

Lemma wp_call_unit c Q X w :
  (let a := answer E (length (trace w)) c in
   let w' := tick c (Z.max 0 (a_elapsed a)) w in
   match a_raise a with Some e => X e w' | None => Q tt w' end) ->
  wp (call_unit E c) Q X w.
Proof. unfold wp, call_unit, mbind, M_bind, extern. simpl. by destruct (a_raise _). Qed.

Lemma wp_call_bool c Q X w :
  (let a := answer E (length (trace w)) c in
   let w' := tick c (Z.max 0 (a_elapsed a)) w in
   match a_raise a with Some e => X e w' | None => Q (a_bool a) w' end) ->
  wp (call_bool E c) Q X w.
Proof. unfold wp, call_bool, mbind, M_bind, extern. simpl. by destruct (a_raise _). Qed.

Lemma wp_call_tag c Q X w :
  (let a := answer E (length (trace w)) c in
   let w' := tick c (Z.max 0 (a_elapsed a)) w in
   match a_raise a with Some e => X e w' | None => Q (a_tag a) w' end) ->
  wp (call_tag E c) Q X w.
Proof. unfold wp, call_tag, mbind, M_bind, extern. simpl. by destruct (a_raise _). Qed.

Lemma wp_time_sleep d Q X w :
  (if d <? 0 then X (OtherError "ValueError") w
   else Q tt (tick (sleep d) (d + Z.max 0 (a_elapsed (answer E (length (trace w)) (sleep d)))) w)) ->
  wp (time_sleep E d) Q X w.
Proof. unfold wp, time_sleep. by destruct (d <? 0). Qed.

Lemma wp_motors_set_speed n v Q X w :
  (let a := answer E (length (trace w)) (set_speed n v) in
   let w' := tick (set_speed n v) (Z.max 0 (a_elapsed a)) w in
   match a_raise a with
   | Some e => X e w'
   | None => Q tt (set_motors (fun m => <[n := v]> m) w')
   end) ->
  wp (motors_set_speed E n v) Q X w.
Proof.
  intros H. unfold motors_set_speed. apply wp_bind, wp_call_unit. simpl in *.
  by destruct (a_raise _).
Qed.

Lemma wp_motors_stop n Q X w :
  (let a := answer E (length (trace w)) (stop_motor n) in
   let w' := tick (stop_motor n) (Z.max 0 (a_elapsed a)) w in
   match a_raise a with
   | Some e => X e w'
   | None => Q tt (set_motors (fun m => <[n := 0]> m) w')
   end) ->
  wp (motors_stop E n) Q X w.
Proof.
  intros H. unfold motors_stop. apply wp_bind, wp_call_unit. simpl in *.
  by destruct (a_raise _).
Qed.

Lemma wp_the_part Q X w :
  match current_part (ctl w) with
  | None => X AttributeError w
  | Some l => match heap w !! l with
              | Some p => Q (l, p) w
              | None => X AttributeError w
              end
  end ->
  wp the_part Q X w.
Proof.
  intros H. unfold the_part. apply wp_bind, wp_get.
  destruct (current_part (ctl w)) as [l|]; [|done].
  by destruct (heap w !! l).
Qed.

(** [log_event] from the controller, for an activity that is not counted
    or a dictionary that has its counters. *)
Lemma wp_log_event part_id station_id activity Q X w :
  (let a := answer E (length (trace w)) open_log_file in
   let w' := tick open_log_file (Z.max 0 (a_elapsed a)) w in
   match a_raise a with
   | Some e => X e w'
   | None =>
       forall d',
         DataLogger.rows d' = DataLogger.rows (data_logger w)
                              ++ [DataLogger.mkRow (a_stamp a) station_id part_id activity] ->
         DataLogger.kpis d' = DataLogger.counted station_id activity
                                (DataLogger.kpis (data_logger w)) ->
         Q tt (set_data_logger d' w')
   end) ->
  (activity = "EXIT" -> DataLogger.has_counters (DataLogger.kpis (data_logger w))) ->
  wp (data_logger_log_event E part_id station_id activity) Q X w.
Proof.
  intros H Hc. unfold data_logger_log_event. apply wp_bind, wp_extern.
  apply wp_zoom. simpl in *. unfold wp.
  destruct (a_raise _) as [e|]; [done|].
  destruct (DataLoggerFacts.log_event_spec
              (a_stamp (answer E (length (trace w)) open_log_file))
              part_id station_id activity (data_logger w) Hc) as (d' & -> & Hk & Hr).
  by apply H.
Qed.

(** The same without knowing the dictionary: whatever [log_event] does to
    the logger, it returns or raises. *)
Lemma wp_log_event_any part_id station_id activity Q X w :
  (let a := answer E (length (trace w)) open_log_file in
   let w' := tick open_log_file (Z.max 0 (a_elapsed a)) w in
   forall d', Q tt (set_data_logger d' w') /\ forall e, X e (set_data_logger d' w')) ->
  wp (data_logger_log_event E part_id station_id activity) Q X w.
Proof.
  intros H. unfold data_logger_log_event. apply wp_bind, wp_extern.
  apply wp_zoom. simpl in *. unfold wp.
  destruct (DataLogger.log_event _ _ _ _ _ _) as [[[]|e] d']; by apply H.
Qed.

End Primitives.

Lemma wp_returns_unit {S} (c : M S unit) (Q : S -> Prop) s :
  wp c (fun _ => Q) (fun _ _ => False) s -> exists s', c s = (Ok tt, s') /\ Q s'.
Proof. intros H. apply wp_returns in H as ([] & s' & ? & ?). eauto. Qed.

(** Projections of an updated world. *)
Ltac wsimpl :=
  cbn [ctl heap data_logger motors console clock trace threads
       tick log set_ctl set_heap set_data_logger set_motors set_threads
       station_num station_id process_time motor_speed motor_num state
       current_part queue running stop_event thread
       set_state set_current_part set_running set_stop_event set_thread
       negb fst snd] in *;
  rewrite ?length_app in *; cbn [length] in *; rewrite ?Nat.add_1_r in *.

Lemma wp_entry_sensor E Q X w :
  (let a := answer E (length (trace w)) (entry_call (ctl w)) in
   let w' := tick (entry_call (ctl w)) (Z.max 0 (a_elapsed a)) w in
   match a_raise a with Some e => X e w' | None => Q (a_bool a) w' end) ->
  wp (entry_sensor E) Q X w.
Proof.
  intros H. unfold entry_sensor. apply wp_bind, wp_get. unfold entry_call in H.
  destruct (station_num (ctl w) =? 1); by apply wp_call_bool.
Qed.

(** C6.  The station is idle, its entry sensor reads true, the tag read
    returns, and the entry sensor then reads false.  [_state_idle]
    returns; the data logger is untouched, so no row was written; the state
    is still IDLE and [current_part], like every attribute of the
    controller, is what it was; no part object was built and no motor was
    commanded.  The only calls made are the two sensor reads and the tag
    read. *)
Theorem idle_spurious_detection E w :
  let n := length (trace w) in
  state (ctl w) = IDLE ->
  a_raise (answer E n (entry_call (ctl w))) = None ->
  a_bool (answer E n (entry_call (ctl w))) = true ->
  a_raise (answer E (S n) (read_tag 2000)) = None ->
  a_raise (answer E (S (S n)) (entry_call (ctl w))) = None ->
  a_bool (answer E (S (S n)) (entry_call (ctl w))) = false ->
  exists w',
    _state_idle E w = (Ok tt, w') /\
    data_logger w' = data_logger w /\
    state (ctl w') = IDLE /\
    current_part (ctl w') = current_part (ctl w) /\
    ctl w' = ctl w /\ heap w' = heap w /\ motors w' = motors w /\
    trace w' = trace w ++ [entry_call (ctl w); read_tag 2000; entry_call (ctl w)].
Proof.
  intros n Hidle Hr0 Hb0 Hr1 Hr2 Hb2.
  apply wp_returns_unit. unfold _state_idle.
  apply wp_bind, wp_entry_sensor. cbv zeta. fold n. rewrite Hr0, Hb0.
  do 2 wp_step. apply wp_bind, wp_call_tag. cbv zeta. wsimpl. fold n. rewrite Hr1.
  apply wp_bind, wp_entry_sensor. cbv zeta. wsimpl. fold n. rewrite Hr2, Hb2.
  cbn [negb]. wp_step. wsimpl. rewrite <- !app_assoc. by rewrite Hidle.
Qed.


Lemma wp_exit_sensor E Q X w :
  (let a := answer E (length (trace w)) (exit_call (ctl w)) in
   let w' := tick (exit_call (ctl w)) (Z.max 0 (a_elapsed a)) w in
   match a_raise a with Some e => X e w' | None => Q (a_bool a) w' end) ->
  wp (exit_sensor E) Q X w.
Proof.
  intros H. unfold exit_sensor. apply wp_bind, wp_get. unfold exit_call in H.
  destruct (station_num (ctl w) =? 1); by apply wp_call_bool.
Qed.

Lemma unchanged_refl w : unchanged w w.
Proof. by repeat split. Qed.

Lemma unchanged_trans w1 w2 w3 : unchanged w1 w2 -> unchanged w2 w3 -> unchanged w1 w3.
Proof. unfold unchanged. intros (?&?&?&?&?) (?&?&?&?&?). repeat split; congruence. Qed.

Lemma unchanged_tick c el w : unchanged w (tick c el w).
Proof. by repeat split. Qed.

(** Waiting for the exit sensor to clear touches neither the controller
    nor the parts, the logger or the motors, however it ends. *)
Lemma clear_wait_unchanged E fuel start_time timeout w :
  wp (clear_wait E fuel start_time timeout)
     (fun _ w' => unchanged w w') (fun _ w' => unchanged w w') w.
Proof.
  revert w. induction fuel as [|fuel IH]; intros w; cbn [clear_wait].
  - apply wp_bind, wp_get. destruct (_ <? _); apply wp_ret, unchanged_refl.
  - apply wp_bind, wp_get. destruct (_ <? _); [|apply wp_ret, unchanged_refl].
    apply wp_bind, wp_exit_sensor. cbv zeta.
    destruct (a_raise _); [apply unchanged_tick|].
    destruct (a_bool _); cbn [negb].
    + apply wp_bind, wp_time_sleep. cbn [Z.ltb Z.compare].
      eapply wp_mono; [| |apply IH]; cbv beta; intros ? w' Hw';
        (eapply unchanged_trans; [|exact Hw']); by repeat split.
    + apply wp_bind, wp_time_sleep. cbn [Z.ltb Z.compare].
      apply wp_ret. by repeat split.
Qed.

(** Fifty turns are enough for the five seconds of [_state_exiting]:
    with [fuel * 100] at least the time left, the loop ends as in the
    source, by its condition or its [break]. *)
Lemma clear_wait_enough E fuel start_time timeout w :
  timeout - (clock w - start_time) <= 100 * Z.of_nat fuel ->
  wp (clear_wait E fuel start_time timeout) (fun b _ => b = true) (fun _ _ => True) w.
Proof.
  revert w. induction fuel as [|fuel IH]; intros w Hleft; cbn [clear_wait].
  - apply wp_bind, wp_get. destruct (Z.ltb_spec (clock w - start_time) timeout); [lia|].
    by apply wp_ret.
  - apply wp_bind, wp_get. destruct (_ <? _); [|by apply wp_ret].
    apply wp_bind, wp_exit_sensor. cbv zeta.
    destruct (a_raise _); [done|].
    destruct (a_bool _); cbn [negb].
    + apply wp_bind, wp_time_sleep. cbn [Z.ltb Z.compare].
      apply IH. wsimpl. lia.
    + apply wp_bind, wp_time_sleep. cbn [Z.ltb Z.compare]. by apply wp_ret.
Qed.

Lemma exit_sensor_clock E w r w1 : exit_sensor E w = (r, w1) -> clock w <= clock w1.
Proof.
  unfold exit_sensor, call_bool, extern, mbind, M_bind, get.
  destruct (_ =? _); cbn; destruct (a_raise _); intros [= <- <-]; cbn; lia.
Qed.

(** More fuel than that changes nothing. *)
Lemma clear_wait_more_fuel E fuel extra start_time timeout w :
  timeout - (clock w - start_time) <= 100 * Z.of_nat fuel ->
  clear_wait E (fuel + extra) start_time timeout w = clear_wait E fuel start_time timeout w.
Proof.
  revert w. induction fuel as [|fuel IH]; intros w Hleft.
  - destruct extra; [done|]. cbn [Nat.add clear_wait]. unfold mbind, M_bind, get.
    destruct (Z.ltb_spec (clock w - start_time) timeout); [lia|done].
  - cbn [Nat.add clear_wait]. unfold mbind, M_bind, get.
    destruct (_ <? _); [|done].
    destruct (exit_sensor E w) as [[[]|e] w1] eqn:Hs; try done.
    pose proof (exit_sensor_clock _ _ _ _ Hs) as Hmono.
    cbn [negb]. unfold time_sleep. cbn [Z.ltb Z.compare].
    apply IH. wsimpl. lia.
Qed.

(** *** The invariant of the control loop *)

Lemma snoc_lookup {A} (h : list A) (x : A) : (h ++ [x]) !! length h = Some x.
Proof. by apply list_lookup_middle. Qed.

Lemma insert_snoc_lookup {A} (h : list A) (x y : A) :
  <[length h := y]> (h ++ [x]) !! length h = Some y.
Proof. apply list_lookup_insert_eq. rewrite length_app. simpl. lia. Qed.

Lemma wp_the_part_known l p Q X w :
  current_part (ctl w) = Some l -> heap w !! l = Some p ->
  Q (l, p) w -> wp the_part Q X w.
Proof. intros Hl Hp H. apply wp_the_part. by rewrite Hl, Hp. Qed.

Ltac wsimpl_goal :=
  cbv beta;
  cbn [ctl heap data_logger motors console clock trace threads
       tick log set_ctl set_heap set_data_logger set_motors set_threads
       station_num station_id process_time motor_speed motor_num state
       current_part queue running stop_event thread
       set_state set_current_part set_running set_stop_event set_thread
       negb fst snd];
  rewrite ?length_app; cbn [length]; rewrite ?Nat.add_1_r;
  rewrite ?snoc_lookup, ?insert_snoc_lookup.

Ltac wp_prim E :=
  lazymatch goal with
  | |- wp (mbind _ _) _ _ _ => apply wp_bind
  | |- wp (mret _) _ _ _ => apply wp_ret
  | |- wp get _ _ _ => apply wp_get
  | |- wp (modify _) _ _ _ => apply wp_modify
  | |- wp (raise _) _ _ _ => apply wp_raise
  | |- wp (extern E _) _ _ _ => apply wp_extern
  | |- wp (call_unit E _) _ _ _ => apply wp_call_unit; cbv zeta
  | |- wp (call_bool E _) _ _ _ => apply wp_call_bool; cbv zeta
  | |- wp (call_tag E _) _ _ _ => apply wp_call_tag; cbv zeta
  | |- wp (entry_sensor E) _ _ _ => apply wp_entry_sensor; cbv zeta
  | |- wp (exit_sensor E) _ _ _ => apply wp_exit_sensor; cbv zeta
  | |- wp (time_sleep E _) _ _ _ => apply wp_time_sleep
  | |- wp (motors_set_speed E _ _) _ _ _ => apply wp_motors_set_speed; cbv zeta
  | |- wp (motors_stop E _) _ _ _ => apply wp_motors_stop; cbv zeta
  | |- wp the_part _ _ _ =>
      first [ eapply wp_the_part_known;
              [ wsimpl_goal; first [reflexivity | eassumption]
              | wsimpl_goal; first [reflexivity | eassumption]
              | ]
            | apply wp_the_part ]
  | |- wp (new_part _) _ _ _ => unfold new_part
  | |- wp (part_add_event _) _ _ _ => unfold part_add_event
  | |- wp (data_logger_log_event E _ _ _) _ _ _ =>
      first [ apply wp_log_event;
              [ cbv zeta
              | first [ by intros [=] | by intros _; wsimpl_goal ] ]
            | apply wp_log_event_any; cbv zeta; intros ?d'; split; [|intros ?e] ]
  | |- wp (if ?b then _ else _) _ _ _ => destruct b eqn:?
  | |- wp (match ?o with _ => _ end) _ _ _ => destruct o eqn:?
  | |- match ?o with _ => _ end => destruct o eqn:?
  | |- forall _, _ => intro
  end.

Ltac wp_go E := repeat (wsimpl_goal; wp_prim E).

Lemma counted_kpis_has_counters d d' sid act :
  DataLogger.has_counters (DataLogger.kpis d) ->
  DataLogger.kpis d' = DataLogger.counted sid act (DataLogger.kpis d) ->
  DataLogger.has_counters (DataLogger.kpis d').
Proof. intros H ->. by apply DataLoggerFacts.counted_has_counters. Qed.

(** The goals the handlers leave: the invariant of a world written as
    updates of the one the handler started from. *)
Ltac inv_done :=
  unfold invariant; wsimpl_goal;
  split_and!;
  [ first [ assumption | eapply counted_kpis_has_counters; eassumption ]
  | first [ done | by intros ? [= <-]; wsimpl_goal; eauto ]
  | first [ done | by eauto 10 ]
  | first [ done | by eauto ] ].

(** The same, leaving the part about the owned part when it is not
    immediate. *)
Ltac inv_split :=
  unfold invariant; wsimpl_goal;
  split_and!;
  [ first [ assumption | eapply counted_kpis_has_counters; eassumption ]
  | first [ done | by intros ? [= <-]; wsimpl_goal; eauto ]
  | try done
  | first [ done | by eauto ] ].

Lemma idle_invariant strict E w :
  invariant strict w -> state (ctl w) = IDLE ->
  wp (_state_idle E) (fun _ w' => invariant strict w') (fun _ w' => invariant false w') w.
Proof.
  intros (Hc & Hheap & Hown & Hstrict) Hidle. unfold _state_idle.
  wp_go E; try inv_done; inv_split.
  all: intros _; eexists _, _, _, _; split_and!;
    [ reflexivity | apply insert_snoc_lookup | eassumption ].
Qed.

Lemma advancing_invariant strict E a w :
  invariant strict w -> state (ctl w) = advancing_state a ->
  wp (advancing_handler E a) (fun _ w' => invariant strict w')
     (fun _ w' => invariant false w') w.
Proof.
  intros (Hc & Hheap & Hown & Hstrict) Hst.
  destruct Hown as (l & p & stamp & earlier & Hl & Hp & Hrows); [by destruct a; rewrite Hst|].
  destruct a; cbn [advancing_handler];
    unfold _state_advancing_to_process, _state_advancing_to_exit.
  all: wp_go E; inv_done.
Qed.

Lemma processing_invariant strict E w :
  invariant strict w -> state (ctl w) = PROCESSING ->
  wp (_state_processing E) (fun _ w' => invariant strict w')
     (fun _ w' => invariant false w') w.
Proof.
  intros (Hc & Hheap & Hown & Hstrict) Hst.
  destruct Hown as (l & p & stamp & earlier & Hl & Hp & Hrows); [by rewrite Hst|].
  unfold _state_processing. wp_go E; inv_done.
Qed.

Ltac inv_from Hctl Hheap Hdl :=
  unfold invariant; wsimpl_goal; rewrite ?Hctl, ?Hheap, ?Hdl; wsimpl_goal;
  split_and!;
  [ first [ assumption | eapply counted_kpis_has_counters; [|eassumption]; by rewrite ?Hdl ]
  | first [ done | by intros ? [= <-]; eauto ]
  | first [ done | by eauto 10 ]
  | first [ done | by eauto ] ].

Lemma exiting_invariant strict E w :
  invariant strict w -> state (ctl w) = EXITING ->
  wp (_state_exiting E) (fun _ w' => invariant strict w')
     (fun _ w' => invariant false w') w.
Proof.
  intros (Hc & Hheapok & Hown & Hstrict) Hst.
  destruct Hown as (l & p & stamp & earlier & Hl & Hp & Hrows); [by rewrite Hst|].
  unfold _state_exiting. wp_go E; [inv_done|].
  eapply wp_mono; [| |apply clear_wait_unchanged]; cbv beta;
    intros ? w' (Hctl & Hheap & Hdl & Hmot & _); wsimpl.
  2:{ inv_from Hctl Hheap Hdl. }
  wp_prim E. wp_prim E. wsimpl_goal. wp_prim E; [inv_from Hctl Hheap Hdl|].
  wp_prim E. wp_prim E. wp_prim E. wsimpl_goal. rewrite Hctl, Hl.
  wp_prim E.
  eapply (wp_the_part_known l p); [by wsimpl_goal; rewrite Hctl|by wsimpl_goal; rewrite Hheap|].
  wp_prim E. wsimpl_goal. apply wp_log_event; [cbv zeta|by wsimpl_goal; rewrite Hdl].
  wsimpl_goal. wp_prim E; [inv_from Hctl Hheap Hdl|].
  intros d' Hrows' Hkpis'. wp_prim E. unfold part_add_event. wp_prim E.
  eapply (wp_the_part_known l p); [by wsimpl_goal; rewrite Hctl|by wsimpl_goal; rewrite Hheap|].
  wp_go E. unfold invariant; wsimpl_goal. split_and!; [|done|done|done].
  eapply counted_kpis_has_counters; [|eassumption]. by rewrite Hdl.
Qed.

(** Every handler keeps the invariant, and keeps all but its strict part
    when it raises. *)
Lemma dispatch_invariant strict E w :
  invariant strict w ->
  wp (dispatch E) (fun _ w' => invariant strict w') (fun _ w' => invariant false w') w.
Proof.
  intros Hinv. unfold dispatch. apply wp_bind, wp_get.
  destruct (state (ctl w)) eqn:Hst.
  - by apply idle_invariant.
  - by apply (advancing_invariant strict E to_process).
  - by apply processing_invariant.
  - by apply (advancing_invariant strict E to_exit).
  - by apply exiting_invariant.
Qed.

Lemma invariant_weaken strict w : invariant strict w -> invariant false w.
Proof. intros (? & ? & ? & ?). by split_and!. Qed.

Lemma invariant_unchanged strict w w' :
  unchanged w w' -> invariant strict w -> invariant strict w'.
Proof. intros (Hctl & Hheap & Hdl & _) H. unfold invariant. by rewrite Hctl, Hheap, Hdl. Qed.

Lemma sleep_returns E d w :
  0 <= d -> exists w', time_sleep E d w = (Ok tt, w') /\ unchanged w w' /\
                       trace w' = trace w ++ [sleep d].
Proof.
  intros Hd. unfold time_sleep. destruct (Z.ltb_spec d 0); [lia|].
  eexists. split; [reflexivity|]. split; [apply unchanged_tick|done].
Qed.

Lemma recover_invariant E e w :
  invariant false w -> invariant false (snd (recover E e w)).
Proof.
  intros Hinv.
  assert (wp (recover E e) (fun _ w' => invariant false w') (fun _ w' => invariant false w') w)
    as Hwp.
  { destruct Hinv as (Hc & Hheapok & Hown & Hstrict). unfold recover. wp_go E; inv_done. }
  unfold wp in Hwp. by destruct (recover E e w) as [[[]|e'] w'].
Qed.

(** A turn of the loop keeps the invariant; it keeps the strict one when
    the handler returns. *)
Lemma iteration_invariant strict E w :
  invariant strict w ->
  (strict = true -> exists w', dispatch E w = (Ok tt, w')) ->
  invariant strict (snd (iteration E w)).
Proof.
  intros Hinv Hclean. pose proof (dispatch_invariant strict E w Hinv) as Hwp.
  unfold wp in Hwp. unfold iteration, try_except, mbind, M_bind.
  destruct (dispatch E w) as [[[]|e] w1] eqn:Hrun.
  - destruct (sleep_returns E 50 w1) as (w2 & -> & Hsame & _); [lia|].
    by apply (invariant_unchanged _ w1).
  - destruct strict.
    + destruct Hclean as (w' & [=]); done.
    + by apply recover_invariant.
Qed.

Lemma start_invariant strict E w :
  invariant strict w -> invariant strict (snd (start E w)).
Proof.
  intros Hinv.
  assert (wp (start E) (fun _ w' => invariant strict w') (fun _ w' => invariant strict w') w)
    as Hwp.
  { destruct Hinv as (Hc & Hheapok & Hown & Hstrict). unfold start. wp_go E; inv_done. }
  unfold wp in Hwp. by destruct (start E w) as [[[]|e'] w'].
Qed.

Lemma stop_invariant strict E w :
  invariant strict w -> invariant strict (snd (stop E w)).
Proof.
  intros Hinv.
  assert (wp (stop E) (fun _ w' => invariant strict w') (fun _ w' => invariant strict w') w)
    as Hwp.
  { destruct Hinv as (Hc & Hheapok & Hown & Hstrict). unfold stop. wp_go E; inv_done. }
  unfold wp in Hwp. by destruct (stop E w) as [[[]|e'] w'].
Qed.

(** A controller is built idle and without a part. *)
Lemma init_idle station_num config c msgs :
  __init__ station_num config = Ok (c, msgs) ->
  state c = IDLE /\ current_part c = None /\ running c = false /\
  StationController.station_num c = station_num /\ motor_num c = 2 + station_num.
Proof.
  unfold __init__. destruct (config_get _ _ _); [|done].
  destruct (config_get _ _ _); [|done]. by intros [= <- <-].
Qed.

Lemma reachable_invariant strict w : reachable strict w -> invariant strict w.
Proof.
  induction 1 as [n config c msgs log_file existing calls now Hinit
                 | E w _ IH | E w _ IH | E w _ IH Hclean].
  - destruct (init_idle _ _ _ _ Hinit) as (Hst & Hpart & _).
    unfold invariant, new_world. wsimpl_goal. split_and!; [|by rewrite Hpart|done|done].
    apply DataLoggerFacts.after_has_counters.
    rewrite DataLoggerFacts.fresh_kpis. apply DataLoggerFacts.initial_has_counters.
  - by apply start_invariant.
  - by apply stop_invariant.
  - by apply iteration_invariant.
Qed.

(** C10.  Take any world reached from the construction of a controller
    by [start], [stop] and turns of the control loop in which the state
    handler returned.  There [current_part] is [None] exactly when the
    state is IDLE. *)
Theorem part_owned_iff_not_idle w :
  reachable true w ->
  (current_part (ctl w) = None <-> state (ctl w) = IDLE).
Proof.
  intros Hreach. destruct (reachable_invariant _ _ Hreach) as (_ & _ & Hown & Hstrict).
  split.
  - intros Hnone. destruct (decide (state (ctl w) = IDLE)) as [|Hne]; [done|].
    destruct (Hown Hne) as (l & ? & ? & ? & Hl & _). congruence.
  - by apply Hstrict.
Qed.
(** *** Timeouts while advancing *)

(** The steps of a computation that make no call. *)
Ltac wp_pure :=
  repeat (wsimpl_goal;
          lazymatch goal with
          | |- wp (mbind _ _) _ _ _ => apply wp_bind
          | |- wp (mret _) _ _ _ => apply wp_ret
          | |- wp get _ _ _ => apply wp_get
          | |- wp (modify _) _ _ _ => apply wp_modify
          end);
  wsimpl_goal.

(** The run of an advancing handler whose wait times out, for a station
    that owns part [p]. *)
Lemma advancing_timeout_run E a w l p :
  let n := length (trace w) in
  let c := ctl w in
  current_part c = Some l -> heap w !! l = Some p ->
  a_raise (answer E n (set_speed (motor_num c) (motor_speed c))) = None ->
  a_raise (answer E (S n) (wait_for_pi (position_pin a c) 10000)) = None ->
  a_bool (answer E (S n) (wait_for_pi (position_pin a c) 10000)) = false ->
  a_raise (answer E (S (S n)) (stop_motor (motor_num c))) = None ->
  a_raise (answer E (S (S (S n))) open_log_file) = None ->
  exists w',
    advancing_handler E a w = (Ok tt, w') /\
    trace w' = trace w ++ [set_speed (motor_num c) (motor_speed c);
                           wait_for_pi (position_pin a c) 10000;
                           stop_motor (motor_num c); open_log_file] /\
    motors w' !! motor_num c = Some 0 /\
    DataLogger.rows (data_logger w')
      = DataLogger.rows (data_logger w)
        ++ [DataLogger.mkRow (a_stamp (answer E (S (S (S n))) open_log_file))
              (station_id c) (part_id p) (timeout_activity a)] /\
    DataLogger.kpis (data_logger w') = DataLogger.kpis (data_logger w) /\
    heap w' = heap w /\
    current_part (ctl w') = None /\
    state (ctl w') = IDLE.
Proof.
  intros n c Hl Hp Hspeed Hwait Hfalse Hstop Hfile. subst c.
  apply wp_returns_unit.
  destruct a; cbn [advancing_handler position_pin timeout_activity] in *;
    unfold _state_advancing_to_process, _state_advancing_to_exit.
  all: wp_pure; apply wp_motors_set_speed; cbv zeta; wsimpl_goal; fold n; rewrite Hspeed.
  all: destruct (station_num (ctl w) =? 1).
  all: wp_pure; apply wp_call_bool; cbv zeta; wsimpl_goal; fold n; rewrite Hwait, Hfalse.
  all: wp_pure; apply wp_motors_stop; cbv zeta; wsimpl_goal; fold n; rewrite Hstop.
  all: wp_pure; apply (wp_the_part_known l p); [done|done|].
  all: wp_pure; (apply wp_log_event; [cbv zeta|done]); wsimpl_goal; fold n; rewrite Hfile.
  all: intros d' Hrows Hkpis; wp_pure.
  all: rewrite <- !app_assoc; split_and!; try done.
  all: by rewrite lookup_insert_eq.
Qed.

(** C1.  A station reached by any turns of its loop, faults included, is
    in an advancing state; the motor calls and the log write return and
    the wait on the position sensor returns false.  The station owns a
    part whose ENTER is the last row of the log.  The handler returns; it
    called [set_speed], the wait, [stop] and the log write, in this order,
    and the motor is commanded to 0; the log is what it was plus one row,
    ERROR_TIMEOUT_PROCESS or ERROR_TIMEOUT_EXIT for that part at that
    station, so the rows of this transit are the ENTER and the timeout
    error and none is an EXIT; the counters and the part's own history are
    untouched; [current_part] is [None] and the state is IDLE. *)
Theorem advancing_timeout E a w :
  let n := length (trace w) in
  let c := ctl w in
  reachable false w ->
  state c = advancing_state a ->
  a_raise (answer E n (set_speed (motor_num c) (motor_speed c))) = None ->
  a_raise (answer E (S n) (wait_for_pi (position_pin a c) 10000)) = None ->
  a_bool (answer E (S n) (wait_for_pi (position_pin a c) 10000)) = false ->
  a_raise (answer E (S (S n)) (stop_motor (motor_num c))) = None ->
  a_raise (answer E (S (S (S n))) open_log_file) = None ->
  exists l p stamp earlier w',
    current_part c = Some l /\ heap w !! l = Some p /\
    DataLogger.rows (data_logger w) = earlier ++ [enter_row stamp c p] /\
    advancing_handler E a w = (Ok tt, w') /\
    trace w' = trace w ++ [set_speed (motor_num c) (motor_speed c);
                           wait_for_pi (position_pin a c) 10000;
                           stop_motor (motor_num c); open_log_file] /\
    motors w' !! motor_num c = Some 0 /\
    DataLogger.rows (data_logger w')
      = earlier ++ [enter_row stamp c p;
                    DataLogger.mkRow (a_stamp (answer E (S (S (S n))) open_log_file))
                      (station_id c) (part_id p) (timeout_activity a)] /\
    Forall (fun r => DataLogger.r_activity r <> "EXIT")
           (drop (length earlier) (DataLogger.rows (data_logger w'))) /\
    DataLogger.kpis (data_logger w') = DataLogger.kpis (data_logger w) /\
    heap w' = heap w /\
    current_part (ctl w') = None /\
    state (ctl w') = IDLE.
Proof.
  intros n c Hreach Hst Hspeed Hwait Hfalse Hstop Hfile.
  destruct (reachable_invariant _ _ Hreach) as (_ & _ & Hown & _).
  destruct Hown as (l & p & stamp & earlier & Hl & Hp & Hrows).
  { fold c. rewrite Hst. by destruct a. }
  destruct (advancing_timeout_run E a w l p Hl Hp Hspeed Hwait Hfalse Hstop Hfile)
    as (w' & Hrun & Htrace & Hmotor & Hrows' & Hkpis & Hheap & Hpart & Hidle).
  exists l, p, stamp, earlier, w'.
  assert (DataLogger.rows (data_logger w')
          = earlier ++ [enter_row stamp c p;
                        DataLogger.mkRow (a_stamp (answer E (S (S (S n))) open_log_file))
                          (station_id c) (part_id p) (timeout_activity a)]) as Hall.
  { rewrite Hrows', Hrows, <- app_assoc. done. }
  split_and!; try done.
  rewrite Hall, drop_app_length.
  repeat constructor; cbn; [done|by destruct a].
Qed.

(** *** Leaving the station *)

(** What the loop of [_state_exiting] does when no call raises: it
    returns, having only read the exit sensor and slept. *)
Lemma clear_wait_polls E fuel start_time timeout w :
  (forall m call, (length (trace w) <= m)%nat -> a_raise (answer E m call) = None) ->
  exists b w' polls,
    clear_wait E fuel start_time timeout w = (Ok b, w') /\
    unchanged w w' /\
    trace w' = trace w ++ polls /\
    Forall (fun x => x = exit_call (ctl w) \/ exists d, x = sleep d) polls.
Proof.
  revert w. induction fuel as [|fuel IH]; intros w Hquiet; cbn [clear_wait].
  - unfold mbind, M_bind, get. exists (negb (clock w - start_time <? timeout)), w, [].
    rewrite app_nil_r. destruct (_ <? _); by split_and!; try apply unchanged_refl.
  - unfold mbind at 1, M_bind at 1, get.
    destruct (_ <? _); [|exists true, w, []; rewrite app_nil_r;
                         by split_and!; try apply unchanged_refl].
    assert (exit_sensor E w
            = (Ok (a_bool (answer E (length (trace w)) (exit_call (ctl w)))),
               tick (exit_call (ctl w))
                 (0 `max` a_elapsed (answer E (length (trace w)) (exit_call (ctl w)))) w))
      as Hread.
    { unfold exit_sensor, exit_call, call_bool, extern, mbind, M_bind, get.
      destruct (_ =? _); by rewrite Hquiet. }
    erewrite bind_ok by exact Hread.
    destruct (a_bool _); cbn [negb].
    + unfold time_sleep. cbn [Z.ltb Z.compare]. unfold mbind at 1, M_bind at 1.
      edestruct IH as (b & w' & polls & -> & Hsame & Htrace & Hpolls).
      { intros m call Hm. apply Hquiet. wsimpl. lia. }
      wsimpl. exists b, w', (exit_call (ctl w) :: sleep 100 :: polls).
      split_and!; [done| |by rewrite Htrace, <- !app_assoc|].
      * eapply unchanged_trans; [|exact Hsame]. by repeat split.
      * constructor; [by left|]. constructor; [by right; eexists|done].
    + unfold time_sleep. cbn [Z.ltb Z.compare]. unfold mbind, M_bind.
      exists true. eexists. exists [exit_call (ctl w); sleep 500].
      split_and!; [done|by repeat split|by wsimpl_goal; rewrite <- !app_assoc|].
      constructor; [by left|]. constructor; [by right; eexists|done].
Qed.

Lemma wp_clear_wait_quiet E fuel start_time timeout Q X w :
  (forall m call, (length (trace w) <= m)%nat -> a_raise (answer E m call) = None) ->
  (forall b w' polls,
     unchanged w w' -> trace w' = trace w ++ polls ->
     Forall (fun x => x = exit_call (ctl w) \/ exists d, x = sleep d) polls ->
     Q b w') ->
  wp (clear_wait E fuel start_time timeout) Q X w.
Proof.
  intros Hquiet HQ.
  destruct (clear_wait_polls E fuel start_time timeout w Hquiet)
    as (b & w' & polls & Hrun & Hsame & Htrace & Hpolls).
  unfold wp. rewrite Hrun. by eapply HQ.
Qed.

(** C2.  [_state_exiting] is run in a world the station can reach, and
    no call raises.  The handler returns.  It started the motor, read the
    exit sensor and slept until the sensor cleared or five seconds had
    passed, and then stopped the motor, which is commanded to 0.  If a part
    was owned, exactly one row was appended to the log, the EXIT of that
    part at this station, it was counted, and the same event was appended
    to the part's history; if none was owned, the log is untouched.  In
    both cases, and whatever the exit sensor read, [current_part] is
    [None] and the state is IDLE. *)
Theorem exiting_logs_exit E w :
  let n := length (trace w) in
  let c := ctl w in
  reachable false w ->
  (forall m call, (n <= m)%nat -> a_raise (answer E m call) = None) ->
  exists w' polls,
    _state_exiting E w = (Ok tt, w') /\
    Forall (fun x => x = exit_call c \/ exists d, x = sleep d) polls /\
    match current_part c with
    | Some l =>
        exists p stamp now,
          heap w !! l = Some p /\
          trace w' = trace w ++ [set_speed (motor_num c) (motor_speed c)] ++ polls
                             ++ [stop_motor (motor_num c); open_log_file] /\
          DataLogger.rows (data_logger w')
            = DataLogger.rows (data_logger w)
              ++ [DataLogger.mkRow stamp (station_id c) (part_id p) "EXIT"] /\
          DataLogger.kpis (data_logger w')
            = DataLogger.counted (station_id c) "EXIT" (DataLogger.kpis (data_logger w)) /\
          heap w' = <[l := add_event (station_id c) "EXIT" now p]> (heap w)
    | None =>
        trace w' = trace w ++ [set_speed (motor_num c) (motor_speed c)] ++ polls
                           ++ [stop_motor (motor_num c)] /\
        data_logger w' = data_logger w /\
        heap w' = heap w
    end /\
    motors w' !! motor_num c = Some 0 /\
    current_part (ctl w') = None /\
    state (ctl w') = IDLE.
Proof.
  intros n c Hreach Hquiet. subst c.
  destruct (reachable_invariant _ _ Hreach) as (Hc & Hheapok & _ & _).
  cut (wp (_state_exiting E)
          (fun _ w' => exists polls,
             Forall (fun x => x = exit_call (ctl w) \/ exists d, x = sleep d) polls /\
             match current_part (ctl w) with
             | Some l =>
                 exists p stamp now,
                   heap w !! l = Some p /\
                   trace w' = trace w
                              ++ [set_speed (motor_num (ctl w)) (motor_speed (ctl w))]
                              ++ polls ++ [stop_motor (motor_num (ctl w)); open_log_file] /\
                   DataLogger.rows (data_logger w')
                     = DataLogger.rows (data_logger w)
                       ++ [DataLogger.mkRow stamp (station_id (ctl w)) (part_id p) "EXIT"] /\
                   DataLogger.kpis (data_logger w')
                     = DataLogger.counted (station_id (ctl w)) "EXIT"
                         (DataLogger.kpis (data_logger w)) /\
                   heap w' = <[l := add_event (station_id (ctl w)) "EXIT" now p]> (heap w)
             | None =>
                 trace w' = trace w
                            ++ [set_speed (motor_num (ctl w)) (motor_speed (ctl w))]
                            ++ polls ++ [stop_motor (motor_num (ctl w))] /\
                 data_logger w' = data_logger w /\
                 heap w' = heap w
             end /\
             motors w' !! motor_num (ctl w) = Some 0 /\
             current_part (ctl w') = None /\
             state (ctl w') = IDLE)
          (fun _ _ => False) w).
  { intros H. apply wp_returns_unit in H as (w' & Hrun & polls & H). by exists w', polls. }
  unfold _state_exiting.
  wp_pure. apply wp_motors_set_speed; cbv zeta. wsimpl_goal. rewrite Hquiet by done.
  wp_pure. apply wp_clear_wait_quiet.
  { intros m call Hm. apply Hquiet. wsimpl. lia. }
  intros b w2 polls (Hctl & Hheap & Hdl & Hmot & _) Htrace Hpolls. wsimpl.
  wp_pure. apply wp_motors_stop; cbv zeta.
  rewrite Hquiet by (subst n; rewrite Htrace, !length_app; cbn; lia).
  wp_pure. rewrite Hctl. destruct (current_part (ctl w)) as [l|] eqn:Hl.
  - destruct (Hheapok l eq_refl) as [p Hp].
    wp_pure. apply (wp_the_part_known l p); [by wsimpl_goal; rewrite Hctl|by wsimpl_goal; rewrite Hheap|].
    wp_pure. apply wp_log_event; [cbv zeta|by intros _; wsimpl_goal; rewrite Hdl].
    wsimpl_goal. rewrite Hquiet by (subst n; rewrite Htrace, !length_app; cbn; lia).
    intros d' Hrows Hkpis. wp_pure. unfold part_add_event.
    wp_pure. apply (wp_the_part_known l p); [by wsimpl_goal; rewrite Hctl|by wsimpl_goal; rewrite Hheap|].
    wp_pure. exists polls. split; [done|]. split_and!; try done.
    + eexists p, _, _. rewrite Htrace, Hrows, Hkpis, Hdl, Hheap, Hctl. wsimpl_goal.
      split_and!; try done. by rewrite <- !app_assoc.
    + by rewrite Hmot, lookup_insert_eq.
  - wp_pure. exists polls. split; [done|]. rewrite Htrace, Hdl, Hheap. wsimpl_goal.
    split_and!; try done.
    + by rewrite <- !app_assoc.
    + by rewrite lookup_insert_eq.
Qed.

(** *** Faults in the control loop *)

(** A handler that raises has not assigned [self.state]: of the
    controller's attributes only [current_part] may differ. *)
Lemma set_current_part_eta c : c = set_current_part (current_part c) c.
Proof. by destruct c. Qed.

Ltac eta_done :=
  first [ done
        | apply set_current_part_eta
        | match goal with
          | H : current_part _ = _ |- _ => rewrite <- H; apply set_current_part_eta
          end ].

Lemma dispatch_raise_keeps_state E w :
  wp (dispatch E) (fun _ _ => True)
     (fun _ w' => ctl w' = set_current_part (current_part (ctl w')) (ctl w)) w.
Proof.
  unfold dispatch. apply wp_bind, wp_get. destruct (state (ctl w)).
  - unfold _state_idle. wp_go E; wsimpl_goal; eta_done.
  - unfold _state_advancing_to_process.
    wp_go E; wsimpl_goal; eta_done.
  - unfold _state_processing. wp_go E; wsimpl_goal; eta_done.
  - unfold _state_advancing_to_exit.
    wp_go E; wsimpl_goal; eta_done.
  - unfold _state_exiting. wp_go E; [by wsimpl_goal; eta_done|].
    eapply wp_mono; [| |apply clear_wait_unchanged]; cbv beta;
      intros ? w' (Hctl & _); wsimpl; [|by rewrite Hctl; eta_done].
    wp_go E; wsimpl_goal; rewrite ?Hctl in *; eta_done.
Qed.

Lemma dispatch_raise E w e w1 :
  dispatch E w = (Raise e, w1) ->
  ctl w1 = set_current_part (current_part (ctl w1)) (ctl w).
Proof.
  intros Hrun. pose proof (dispatch_raise_keeps_state E w) as H.
  unfold wp in H. by rewrite Hrun in H.
Qed.

(** C7, as the code has it.  The state handler of a turn raises [e], and
    the call of [motors.stop] in the [except] clause returns.  Then the
    turn ends normally: the error is logged, the motor is commanded to 0,
    the thread sleeps one second, and nothing else is called.  The state
    is the one the turn started in, the flags the loop tests are
    untouched, and the loop goes on with its next turn from there. *)
Theorem fault_recovery E w e w1 :
  dispatch E w = (Raise e, w1) ->
  a_raise (answer E (length (trace w1)) (stop_motor (motor_num (ctl w)))) = None ->
  exists w2,
    iteration E w = (Ok tt, w2) /\
    state (ctl w2) = state (ctl w) /\
    loop_condition w2 = loop_condition w /\
    trace w2 = trace w1 ++ [stop_motor (motor_num (ctl w)); sleep 1000] /\
    motors w2 !! motor_num (ctl w) = Some 0 /\
    clock w1 + 1000 <= clock w2 /\
    (ERROR, "Error in control loop: " +:+ str e) ∈ console w2 /\
    (forall n, loop_condition w = true -> loop E (S n) w = loop E n w2).
Proof.
  intros Hrun Hstop. pose proof (dispatch_raise _ _ _ _ Hrun) as Hctl.
  assert (motor_num (ctl w1) = motor_num (ctl w)) as Hnum by (by rewrite Hctl).
  assert (exists w2, recover E e w1 = (Ok tt, w2) /\
            ctl w2 = ctl w1 /\
            trace w2 = trace w1 ++ [stop_motor (motor_num (ctl w)); sleep 1000] /\
            motors w2 !! motor_num (ctl w) = Some 0 /\
            clock w1 + 1000 <= clock w2 /\
            (ERROR, "Error in control loop: " +:+ str e) ∈ console w2)
    as (w2 & Hrec & Hctl2 & Htrace & Hmot & Hclock & Hlog).
  { apply wp_returns_unit. unfold recover. wp_pure. rewrite Hnum.
    apply wp_motors_stop; cbv zeta. wsimpl_goal. rewrite Hstop.
    wp_pure. apply wp_time_sleep. cbn [Z.ltb Z.compare]. wsimpl_goal.
    split_and!; try done.
    - by rewrite <- app_assoc.
    - by rewrite lookup_insert_eq.
    - lia.
    - rewrite elem_of_app, list_elem_of_singleton. by right. }
  assert (iteration E w = (Ok tt, w2)) as Hturn.
  { unfold iteration, try_except. by erewrite bind_raise by exact Hrun. }
  exists w2. split_and!; try done.
  - by rewrite Hctl2, Hctl.
  - unfold loop_condition. by rewrite Hctl2, Hctl.
  - intros n Hcond. cbn [loop]. unfold mbind at 1, M_bind at 1, get. rewrite Hcond.
    by erewrite bind_ok by exact Hturn.
Qed.

(** The only exception that leaves a turn is one that [motors.stop] raised
    in the [except] clause. *)
Lemma iteration_raises E w e w' :
  iteration E w = (Raise e, w') ->
  exists before,
    trace w' = before ++ [stop_motor (motor_num (ctl w))] /\
    a_raise (answer E (length before) (stop_motor (motor_num (ctl w)))) = Some e.
Proof.
  unfold iteration, try_except, mbind, M_bind.
  destruct (dispatch E w) as [[[]|e1] w1] eqn:Hrun.
  - unfold time_sleep. cbn [Z.ltb Z.compare]. done.
  - pose proof (dispatch_raise _ _ _ _ Hrun) as Hctl.
    assert (motor_num (ctl w1) = motor_num (ctl w)) as Hnum by (by rewrite Hctl).
    unfold recover, motors_stop, call_unit, extern, time_sleep, mbind, M_bind, get, modify.
    cbn [Z.ltb Z.compare]. wsimpl_goal. rewrite Hnum.
    destruct (a_raise _) as [e2|] eqn:Hstop; [|done].
    intros [= <- <-]. exists (trace w1). by wsimpl_goal.
Qed.

(** Handlers assign only [state] and [current_part]. *)
Lemma handler_eta c : c = set_state (state c) (set_current_part (current_part c) c).
Proof. by destruct c. Qed.

Ltac flags_done :=
  first [ done
        | apply handler_eta
        | by repeat match goal with
                    | H : current_part _ = _ |- _ => rewrite <- H; clear H
                    | H : state _ = _ |- _ => rewrite <- H; clear H
                    end; apply handler_eta ].

Lemma dispatch_keeps_flags E w :
  wp (dispatch E)
     (fun _ w' => ctl w' = set_state (state (ctl w'))
                             (set_current_part (current_part (ctl w')) (ctl w)))
     (fun _ w' => ctl w' = set_state (state (ctl w'))
                             (set_current_part (current_part (ctl w')) (ctl w))) w.
Proof.
  unfold dispatch. apply wp_bind, wp_get. destruct (state (ctl w)) eqn:Hst.
  - unfold _state_idle. wp_go E; wsimpl_goal; flags_done.
  - unfold _state_advancing_to_process. wp_go E; wsimpl_goal; flags_done.
  - unfold _state_processing. wp_go E; wsimpl_goal; flags_done.
  - unfold _state_advancing_to_exit. wp_go E; wsimpl_goal; flags_done.
  - unfold _state_exiting. wp_go E; [by wsimpl_goal; flags_done|].
    eapply wp_mono; [| |apply clear_wait_unchanged]; cbv beta;
      intros ? w' (Hctl & _); wsimpl; [|by rewrite Hctl; flags_done].
    wp_go E; wsimpl_goal; rewrite ?Hctl in *; flags_done.
Qed.

Lemma iteration_keeps_condition E w r w' :
  iteration E w = (r, w') -> loop_condition w' = loop_condition w.
Proof.
  pose proof (dispatch_keeps_flags E w) as Hwp. unfold wp in Hwp.
  unfold iteration, try_except, mbind, M_bind.
  destruct (dispatch E w) as [[[]|e1] w1] eqn:Hrun.
  - unfold time_sleep. cbn [Z.ltb Z.compare]. intros [= <- <-].
    unfold loop_condition. wsimpl_goal. by rewrite Hwp.
  - unfold recover, motors_stop, call_unit, extern, time_sleep, mbind, M_bind, get, modify.
    cbn [Z.ltb Z.compare]. wsimpl_goal.
    destruct (a_raise _); intros [= <- <-]; unfold loop_condition; wsimpl_goal;
      by rewrite Hwp.
Qed.

(** So a loop whose [motors.stop] never raises is still running after any
    number of turns, whatever the handlers raised. *)
Lemma loop_keeps_running E n w :
  (forall m k, a_raise (answer E m (stop_motor k)) = None) ->
  loop_condition w = true ->
  exists w', loop E n w = (Ok true, w').
Proof.
  intros Hstop. revert w. induction n as [|n IH]; intros w Hcond; cbn [loop].
  - unfold mbind, M_bind, get. rewrite Hcond. by eexists.
  - unfold mbind at 1, M_bind at 1, get. rewrite Hcond.
    destruct (iteration E w) as [[[]|e] w1] eqn:Hturn.
    + erewrite bind_ok by exact Hturn. apply IH.
      by rewrite (iteration_keeps_condition _ _ _ _ Hturn).
    + apply iteration_raises in Hturn as (before & _ & Hraise).
      by rewrite Hstop in Hraise.
Qed.

(** *** Starting and stopping *)

(** C9.  [start] on a controller that is running returns without any
    effect: no attribute changes, no thread is started, nothing is called
    or logged.  [stop] on a controller that is not running, be it newly
    built or stopped before, returns without any effect.  A first [start]
    starts one thread and a second one starts none; after a [stop], whether
    its motor call returned or raised, a further [stop] does nothing. *)
Theorem start_stop_idempotent E w :
  (running (ctl w) = true -> start E w = (Ok tt, w)) /\
  (running (ctl w) = false -> stop E w = (Ok tt, w)) /\
  (forall n config c msgs d now,
     __init__ n config = Ok (c, msgs) ->
     stop E (new_world c d msgs now) = (Ok tt, new_world c d msgs now)) /\
  (running (ctl w) = false ->
   a_raise (answer E (length (trace w)) thread_start) = None ->
   exists w1,
     start E w = (Ok tt, w1) /\
     threads w1 = S (threads w) /\
     trace w1 = trace w ++ [thread_start] /\
     forall E', start E' w1 = (Ok tt, w1) /\ threads (snd (start E' w1)) = S (threads w)) /\
  (forall r w1, running (ctl w) = true -> stop E w = (r, w1) ->
                forall E', stop E' w1 = (Ok tt, w1)).
Proof.
  split_and!.
  - intros Hrun. unfold start, mbind, M_bind, get. by rewrite Hrun.
  - intros Hrun. unfold stop, mbind, M_bind, get. by rewrite Hrun.
  - intros n config c msgs d now Hinit.
    destruct (init_idle _ _ _ _ Hinit) as (_ & _ & Hrun & _).
    unfold stop, new_world, mbind, M_bind, get. wsimpl_goal. by rewrite Hrun.
  - intros Hrun Hthread.
    assert (exists w1, start E w = (Ok tt, w1) /\ threads w1 = S (threads w) /\
                       trace w1 = trace w ++ [thread_start] /\ running (ctl w1) = true)
      as (w1 & Hstart & Hthreads & Htrace & Hrun1).
    { apply wp_returns_unit. unfold start. wp_pure. rewrite Hrun. wp_pure.
      apply wp_call_unit; cbv zeta. wsimpl_goal. rewrite Hthread. wp_pure. done. }
    exists w1. split_and!; try done. intros E'.
    assert (start E' w1 = (Ok tt, w1)) as ->; [|done].
    unfold start, mbind, M_bind, get. by rewrite Hrun1.
  - intros r w1 Hrun Hstop E'.
    assert (running (ctl w1) = false) as Hrun1.
    { assert (wp (stop E) (fun _ w' => running (ctl w') = false)
                (fun _ w' => running (ctl w') = false) w) as Hwp.
      { unfold stop. wp_pure. rewrite Hrun. wp_go E; by wsimpl_goal. }
      unfold wp in Hwp. rewrite Hstop in Hwp. by destruct r. }
    unfold stop, mbind, M_bind, get. by rewrite Hrun1.
Qed.

Lemma start_stop_idempotent_witness :
  start smooth started = (Ok tt, started) /\
  stop smooth example_world = (Ok tt, example_world).
Proof.
  split.
  - apply (proj1 (start_stop_idempotent smooth started)). by vm_compute.
  - apply (proj1 (proj2 (start_stop_idempotent smooth example_world))). by vm_compute.
Defined.

(** *** The example station *)

Lemma example_controller_built :
  __init__ 1 example_config = Ok (example_controller, [(INFO, "Station 1 initialized")]).
Proof. vm_compute. reflexivity. Qed.

Lemma example_world_reachable strict : reachable strict example_world.
Proof.
  apply (reach_new strict 1 example_config example_controller
           [(INFO, "Station 1 initialized")] "data/events.csv" None [] 1767261600000).
  apply example_controller_built.
Qed.

Lemma started_reachable strict : reachable strict started.
Proof. apply reach_start, example_world_reachable. Qed.

Lemma entered_reachable strict : reachable strict entered.
Proof.
  apply (reach_turn strict smooth started); [apply started_reachable|].
  intros _. exists (snd (dispatch smooth started)). vm_compute. reflexivity.
Qed.

Lemma at_process_reachable strict : reachable strict at_process.
Proof.
  apply (reach_turn strict smooth entered); [apply entered_reachable|].
  intros _. exists (snd (dispatch smooth entered)). vm_compute. reflexivity.
Qed.

Lemma processed_reachable strict : reachable strict processed.
Proof.
  apply (reach_turn strict smooth at_process); [apply at_process_reachable|].
  intros _. exists (snd (dispatch smooth at_process)). vm_compute. reflexivity.
Qed.

Lemma at_exit_reachable strict : reachable strict at_exit.
Proof.
  apply (reach_turn strict smooth processed); [apply processed_reachable|].
  intros _. exists (snd (dispatch smooth processed)). vm_compute. reflexivity.
Qed.

(** The scenario of the spec: the part is taken in, processed, reaches the
    exit and leaves; the log holds its ENTER and its EXIT and one part is
    counted. *)
Example smooth_transit :
  let w := snd (iteration smooth at_exit) in
  state (ctl w) = IDLE /\ current_part (ctl w) = None /\
  map DataLogger.r_activity (DataLogger.rows (data_logger w)) = ["Activity"; "ENTER"; "EXIT"] /\
  DataLogger.kpis (data_logger w) !! "total_parts" = Some 1 /\
  DataLogger.kpis (data_logger w) !! "station1_count" = Some 1.
Proof. vm_compute. repeat split; reflexivity. Qed.

Lemma idle_spurious_detection_witness :
  exists w',
    _state_idle glitch example_world = (Ok tt, w') /\
    data_logger w' = data_logger example_world /\
    state (ctl w') = IDLE /\
    current_part (ctl w') = current_part (ctl example_world) /\
    ctl w' = ctl example_world /\ heap w' = heap example_world /\
    motors w' = motors example_world /\
    trace w' = trace example_world ++ [station1_entry; read_tag 2000; station1_entry].
Proof. apply (idle_spurious_detection glitch example_world); reflexivity. Defined.

Lemma advancing_timeout_witness :
  exists w',
    advancing_handler stuck to_process entered = (Ok tt, w') /\
    motors w' !! 3 = Some 0 /\
    current_part (ctl w') = None /\
    state (ctl w') = IDLE.
Proof.
  destruct (advancing_timeout stuck to_process entered) as
    (l & p & stamp & earlier & w' & _ & _ & _ & Hrun & _ & Hmotor & _ & _ & _ & _ & Hpart & Hidle);
    [apply entered_reachable | vm_compute; reflexivity ..|].
  exists w'; split_and!; [exact Hrun|exact Hmotor|exact Hpart|exact Hidle].
Defined.

(** The scenario of the spec in which the process sensor never fires: the
    log holds the ENTER and the timeout error, no EXIT, and nothing is
    counted. *)
Example stuck_transit :
  let w := snd (advancing_handler stuck to_process entered) in
  map DataLogger.r_activity (DataLogger.rows (data_logger w))
    = ["Activity"; "ENTER"; "ERROR_TIMEOUT_PROCESS"] /\
  DataLogger.kpis (data_logger w) !! "total_parts" = Some 0.
Proof. vm_compute. repeat split; reflexivity. Qed.

Lemma exiting_logs_exit_witness :
  exists w',
    _state_exiting blocked_exit at_exit = (Ok tt, w') /\
    motors w' !! 3 = Some 0 /\
    current_part (ctl w') = None /\
    state (ctl w') = IDLE.
Proof.
  destruct (exiting_logs_exit blocked_exit at_exit) as
    (w' & polls & Hrun & _ & _ & Hmotor & Hpart & Hidle);
    [apply at_exit_reachable | intros; reflexivity |].
  exists w'; split_and!; [exact Hrun|exact Hmotor|exact Hpart|exact Hidle].
Defined.

(** The exit sensor never clears: after fifty readings the handler gives
    up waiting, and the EXIT is logged and counted all the same. *)
Example exit_logged_without_clearing :
  let w := snd (_state_exiting blocked_exit at_exit) in
  length (filter (fun c => c = station1_exit) (trace w))
    = (50 + length (filter (fun c => c = station1_exit) (trace at_exit)))%nat /\
  map DataLogger.r_activity (DataLogger.rows (data_logger w)) = ["Activity"; "ENTER"; "EXIT"] /\
  DataLogger.kpis (data_logger w) !! "total_parts" = Some 1 /\
  state (ctl w) = IDLE.
Proof. vm_compute. repeat split; reflexivity. Qed.

Lemma fault_recovery_witness :
  exists w2,
    iteration jammed entered = (Ok tt, w2) /\
    state (ctl w2) = ADVANCING_TO_PROCESS /\
    loop_condition w2 = true /\
    motors w2 !! 3 = Some 0.
Proof.
  destruct (fault_recovery jammed entered OSError (snd (dispatch jammed entered))) as
    (w2 & Hturn & Hstate & Hcond & _ & Hmotor & _); [vm_compute; reflexivity ..|].
  exists w2; split_and!; [exact Hturn|exact Hstate|exact Hcond|exact Hmotor].
Defined.

(** C7 as stated fails: the station is running and owns a part, the
    motor driver raises on every call.  The handler raises at [set_speed],
    the [except] clause calls [motors.stop], which raises in turn, and this
    second exception leaves the loop: [_run] ends with it after its first
    turn. *)
Lemma loop_dies_with_the_motor :
  loop_condition entered = true /\
  fst (dispatch dead_motor entered) = Raise OSError /\
  fst (iteration dead_motor entered) = Raise OSError /\
  fst (_run dead_motor 1 entered) = Raise OSError.
Proof. vm_compute. repeat split; reflexivity. Qed.

Lemma part_owned_iff_not_idle_witness :
  current_part (ctl entered) = None <-> state (ctl entered) = IDLE.
Proof. apply part_owned_iff_not_idle, entered_reachable. Defined.

End StationControllerFacts.

(** ** More on the data logger *)

Module DataLoggerMore.
Import DataLogger.

Lemma counted_counts sid act m rs ts pid :
  counts m rs -> counts (counted sid act m) (rs ++ [mkRow ts sid pid act]).
Proof.
  intros (Ht & H1 & H2). unfold counted, counts.
  rewrite !ConcurrentFacts.tally_snoc. unfold is_exit_of, is_exit. cbn.
  destruct (String.eqb act "EXIT"); cbn.
  2:{ by rewrite !Z.add_0_r. }
  rewrite Ht, H1, H2. cbn.
  destruct (String.eqb_spec sid "S1") as [->|Hn1]; cbn;
    [|destruct (String.eqb_spec sid "S2") as [->|Hn2]; cbn].
  all: split_and!;
    repeat (rewrite lookup_insert_eq || rewrite lookup_insert_ne by done);
    rewrite ?Ht, ?H1, ?H2; rewrite ?Z.add_0_r; first [done | f_equal; lia].
Qed.

Lemma counts_has_counters m rs : counts m rs -> has_counters m.
Proof. intros (Ht & H1 & H2). unfold has_counters. eauto. Qed.

Lemma written_cons c cs :
  written (c :: cs) = (if opened c then [call_row c] else []) ++ written cs.
Proof.
  unfold written. rewrite filter_cons. destruct (opened c); [|done].
  by rewrite decide_True.
Qed.

(** One call: a row is appended exactly when the file could be opened, and
    the counters follow the rows. *)
Lemma call_rows_counts c d rs :
  counts (kpis d) rs ->
  rows (snd (call c d)) = rows d ++ (if opened c then [call_row c] else []) /\
  counts (kpis (snd (call c d))) (rs ++ (if opened c then [call_row c] else [])).
Proof.
  intros Hc. unfold call, opened. destruct (c_io c) as [e|].
  - cbn. by rewrite !app_nil_r.
  - destruct (DataLoggerFacts.log_event_spec (c_time c) (c_part c) (c_station c)
                (c_activity c) d (fun _ => counts_has_counters _ _ Hc))
      as (d' & -> & Hk & Hr).
    cbn. split; [done|]. rewrite Hk. by apply counted_counts.
Qed.

Lemma after_rows_counts cs d rs :
  counts (kpis d) rs ->
  rows (after cs d) = rows d ++ written cs /\
  counts (kpis (after cs d)) (rs ++ written cs).
Proof.
  revert d rs. induction cs as [|c cs IH]; intros d rs Hc.
  - cbn. by rewrite !app_nil_r.
  - cbn [after foldl]. destruct (call_rows_counts c d rs Hc) as (Hr & Hc').
    destruct (IH _ _ Hc') as (Hr' & Hc''). fold (after cs (snd (call c d))).
    rewrite written_cons, !app_assoc, <- Hr. done.
Qed.

Lemma fresh_counts log_file existing : counts (kpis (fresh log_file existing)) [].
Proof. rewrite DataLoggerFacts.fresh_kpis. by vm_compute. Qed.

Lemma after_fresh_counts log_file existing cs :
  counts (kpis (after cs (fresh log_file existing))) (written cs).
Proof.
  by destruct (after_rows_counts cs (fresh log_file existing) [] (fresh_counts _ _)).
Qed.

(** X1.  The event file is append-only.  After any sequence of
    [log_event] calls on a logger that was just constructed, the file holds
    what it held at construction (the header alone when there was no file,
    the old content otherwise) followed by one row for each call that could
    open the file, in call order, and nothing for the calls that could
    not. *)
Theorem log_is_append_only log_file existing (cs : list Call) :
  rows (after cs (fresh log_file existing)) = default [header] existing ++ written cs.
Proof.
  destruct (after_rows_counts cs (fresh log_file existing) [] (fresh_counts _ _)) as (Hr & _).
  by rewrite Hr, DataLoggerFacts.fresh_rows.
Qed.

(** X2.  The counters are the counts of the EXIT rows written since
    construction: [total_parts] is the number of calls with activity EXIT
    that could open the file, [station1_count] and [station2_count] the
    numbers of those from "S1" and from "S2".  EXIT rows that an existing
    file held before construction are not counted. *)
Theorem counters_count_exit_rows log_file existing (cs : list Call) :
  let d := after cs (fresh log_file existing) in
  kpis d !! "total_parts" = Some (tally is_exit (written cs)) /\
  kpis d !! "station1_count" = Some (tally (is_exit_of "S1") (written cs)) /\
  kpis d !! "station2_count" = Some (tally (is_exit_of "S2") (written cs)).
Proof. apply after_fresh_counts. Qed.

Lemma tally_split rs :
  tally is_exit rs
  = tally (is_exit_of "S1") rs + tally (is_exit_of "S2") rs + tally foreign_exit rs.
Proof.
  induction rs as [|r rs IH] using rev_ind; [done|].
  rewrite !ConcurrentFacts.tally_snoc, IH.
  unfold is_exit_of, foreign_exit. destruct (is_exit r); cbn; [|lia].
  destruct (String.eqb_spec (r_station r) "S1") as [Hs|]; cbn; [rewrite Hs; cbn; lia|].
  destruct (String.eqb (r_station r) "S2"); cbn; lia.
Qed.

Lemma tally_cons f r rs :
  tally f (r :: rs) = (if f r then 1 else 0) + tally f rs.
Proof.
  unfold tally. rewrite filter_cons. case_decide as Hf.
  - rewrite Hf. cbn [length]. lia.
  - destruct (f r); [done|]. lia.
Qed.

Lemma tally_nonneg f rs : 0 <= tally f rs.
Proof. unfold tally. lia. Qed.

Lemma tally_zero f rs : tally f rs = 0 <-> Forall (fun r => f r = false) rs.
Proof.
  induction rs as [|r rs IH]; [by split|].
  rewrite tally_cons, Forall_cons, <- IH.
  pose proof (tally_nonneg f rs).
  destruct (f r); split; intros Hx;
    first [ lia | by destruct Hx | split; [done|lia] | destruct Hx; lia ].
Qed.

(** X3.  The total is the sum of the two station counters exactly when
    no EXIT was logged for any other station: an EXIT from a station other
    than "S1" and "S2" (the docstring of [log_event] names "C1" to "C4")
    increments [total_parts] and no station counter. *)
Theorem balanced_iff_no_foreign_exit log_file existing (cs : list Call) :
  balanced (kpis (after cs (fresh log_file existing)))
  <-> Forall (fun r => foreign_exit r = false) (written cs).
Proof.
  destruct (after_fresh_counts log_file existing cs) as (Ht & H1 & H2).
  rewrite <- tally_zero. unfold balanced. rewrite Ht, H1, H2, tally_split. split.
  - intros (s1 & s2 & [= <-] & [= <-] & [= Heq]). lia.
  - intros Hz. eexists _, _. split_and!; [done|done|]. f_equal. lia.
Qed.

Lemma counted_other sid act m k :
  k <> "total_parts" -> k <> "station1_count" -> k <> "station2_count" ->
  counted sid act m !! k = m !! k.
Proof.
  intros ? ? ?. unfold counted. destruct (String.eqb act "EXIT"); [|done].
  destruct (String.eqb sid "S1"); [|destruct (String.eqb sid "S2")];
    by rewrite !lookup_insert_ne.
Qed.

Lemma counted_dom sid act m : has_counters m -> dom (counted sid act m) = dom m.
Proof.
  intros (Ht & H1 & H2). unfold counted.
  destruct (String.eqb act "EXIT"); [|done].
  destruct (String.eqb sid "S1"); [|destruct (String.eqb sid "S2")];
    rewrite !dom_insert_lookup_L; rewrite ?lookup_insert_is_Some'; auto.
Qed.

Lemma after_other cs d k :
  has_counters (kpis d) ->
  k <> "total_parts" -> k <> "station1_count" -> k <> "station2_count" ->
  kpis (after cs d) !! k = kpis d !! k /\ dom (kpis (after cs d)) = dom (kpis d).
Proof.
  intros Hc ? ? ?. revert d Hc. induction cs as [|c cs IH]; intros d Hc; [done|].
  cbn [after foldl]. fold (after cs (snd (call c d))).
  destruct (IH (snd (call c d))) as (Hk & Hd); [by apply DataLoggerFacts.call_has_counters|].
  rewrite Hk, Hd. unfold call. destruct (c_io c) as [e|]; [done|].
  destruct (DataLoggerFacts.log_event_spec (c_time c) (c_part c) (c_station c)
              (c_activity c) d (fun _ => Hc)) as (d' & -> & Hk' & _).
  cbn. rewrite Hk'. split; [by apply counted_other|by apply counted_dom].
Qed.

(** X4.  [log_event] never touches the two timing counters and never
    adds or removes a key: after any sequence of calls on a logger that was
    just constructed, [total_process_time] and [total_queue_time] are still
    0 and the dictionary has exactly its five keys. *)
Theorem timing_counters_stay_zero log_file existing (cs : list Call) :
  let d := after cs (fresh log_file existing) in
  kpis d !! "total_process_time" = Some 0 /\
  kpis d !! "total_queue_time" = Some 0 /\
  dom (kpis d) = {[ "total_parts"; "station1_count"; "station2_count";
                    "total_process_time"; "total_queue_time" ]}.
Proof.
  intros d. subst d.
  assert (has_counters (kpis (fresh log_file existing))) as Hc.
  { rewrite DataLoggerFacts.fresh_kpis. apply DataLoggerFacts.initial_has_counters. }
  destruct (after_other cs _ "total_process_time" Hc) as (-> & ->); [done..|].
  destruct (after_other cs _ "total_queue_time" Hc) as (-> & _); [done..|].
  rewrite DataLoggerFacts.fresh_kpis. split_and!; [done|done|].
  unfold initial_kpis. rewrite !dom_insert_L, dom_empty_L. set_solver.
Qed.

(** X5.  [print_kpis] does not raise on a logger that was constructed,
    whatever was logged since: it prints the banner and the three counters,
    which are the counts of the EXIT rows written. *)
Theorem print_kpis_prints_counts log_file existing (cs : list Call) :
  print_kpis (after cs (fresh log_file existing))
  = Ok [ ""; rule; "SYSTEM KPIs"; rule;
         "Station 1 processed: " +:+ pretty (tally (is_exit_of "S1") (written cs));
         "Station 2 processed: " +:+ pretty (tally (is_exit_of "S2") (written cs));
         "Total parts: " +:+ pretty (tally is_exit (written cs));
         rule; "" ].
Proof.
  destruct (after_fresh_counts log_file existing cs) as (Ht & H1 & H2).
  unfold print_kpis, lookup_kpi. by rewrite H1, H2, Ht.
Qed.

End DataLoggerMore.

(** ** More on the sensor reader *)

Module SensorReaderMore.
Import SensorReader SensorReaderFacts.

(** Filling a dictionary entry by entry, as the loop over the pin table
    does, gives the dictionary of the entries when no name repeats. *)
Lemma fill_list_to_map (l : list (string * Z)) :
  NoDup l.*1 ->
  foldl (fun (m : gmap string Z) kv => <[kv.1:=kv.2]> m) ∅ l = list_to_map l.
Proof.
  induction l as [|[name pin] l IH] using rev_ind; [done|].
  rewrite fmap_app, NoDup_app. intros (Hl & Hnew & _).
  rewrite foldl_app. cbn [foldl fst snd]. rewrite IH by done.
  rewrite list_to_map_snoc; [done|].
  intros Hin. apply (Hnew _ Hin). cbn. left.
Qed.

Lemma pin_names_differ : NoDup MCP_PIN_MAP.*1.
Proof. apply (bool_decide_unpack _). vm_compute. exact I. Qed.

Lemma filled_prefix (k : nat) :
  foldl (fun (m : gmap string Z) kv => <[kv.1:=kv.2]> m) ∅ (take k MCP_PIN_MAP)
  = list_to_map (take k MCP_PIN_MAP).
Proof.
  apply fill_list_to_map. rewrite fmap_take.
  eapply sublist_NoDup; [apply pin_names_differ | apply sublist_take].
Qed.

Ltac count_inserts m :=
  lazymatch m with
  | insert _ _ ?m' => let n := count_inserts m' in constr:(S n)
  | _ => constr:(O)
  end.

Ltac pins_done :=
  cbn [mcp_pins mcp set_mcp_pins set_mcp set_simulation log];
  lazymatch goal with
  | |- _ /\ _ => split; reflexivity
  | |- ex (fun k => ?m = _ /\ _) =>
      let n := count_inserts m in
      exists n; split; [reflexivity | first [intros _; reflexivity | intros; discriminate]]
  end.

(** The expander pins are registered one after the other in table order:
    a run of [live_init] that raises has registered a prefix of the table,
    and none at all when the expander object was not yet built. *)
Lemma live_init_pins hw :
  wp (live_init hw)
     (fun _ s' => mcp s' = true /\
        mcp_pins s' = foldl (fun (m : gmap string Z) kv => <[kv.1:=kv.2]> m) ∅ MCP_PIN_MAP)
     (fun _ s' => exists k,
        mcp_pins s' = foldl (fun (m : gmap string Z) kv => <[kv.1:=kv.2]> m) ∅
                        (take k MCP_PIN_MAP) /\
        (mcp s' = false -> k = 0%nat))
     (mk false false ∅ []).
Proof.
  unfold live_init, PI_PINS, MCP_PIN_MAP.
  cbn [for_each].
  repeat hw_step hw.
  all: pins_done.
Qed.

(** X6.  However construction goes, the expander pins the reader holds
    are the first [k] entries of the pin table, for some [k].  A reader
    that ends in live mode holds the expander and all eight pins; one
    without the expander object holds none. *)
Theorem expander_pins_in_table_order (hw : Hardware) (HARDWARE_AVAILABLE simulation_arg : bool)
    (before : t) :
  let r := snd (__init__ hw HARDWARE_AVAILABLE simulation_arg before) in
  exists k,
    mcp_pins r = list_to_map (take k MCP_PIN_MAP) /\
    (simulation r = false -> k = 8%nat /\ mcp r = true) /\
    (mcp r = false -> k = 0%nat).
Proof.
  unfold __init__. erewrite bind_ok by reflexivity. erewrite bind_ok by reflexivity.
  cbn [simulation].
  destruct (simulation_arg || negb HARDWARE_AVAILABLE); cbn [negb].
  { exists 0%nat. split_and!; [reflexivity | intros; discriminate | reflexivity]. }
  pose proof (live_init_pins hw) as Hwp. unfold wp in Hwp.
  unfold try_except.
  destruct (live_init hw (mk false false ∅ [])) as [[[]|e] s'].
  - destruct Hwp as (Hmcp & Hpins).
    exists 8%nat. cbn [snd]. rewrite <- filled_prefix.
    split_and!; [exact Hpins | intros _; by split | ].
    rewrite Hmcp. intros; discriminate.
  - destruct Hwp as (k & Hpins & Hk).
    exists k. cbn [snd]. rewrite <- filled_prefix.
    split_and!; [exact Hpins | intros; discriminate | exact Hk].
Qed.

End SensorReaderMore.

(** ** More on the station controller *)

Module StationControllerMore.
Import StationController StationControllerFacts.

(** A step of a handler; a sleep of a fixed length is not a fault. *)
Ltac wp_next E :=
  wsimpl_goal;
  first [ lazymatch goal with
          | |- wp (time_sleep E ?d) _ _ _ =>
              lazymatch d with
              | Zpos _ => apply wp_time_sleep; cbn [Z.ltb Z.compare]
              end
          end
        | wp_prim E ].

Ltac wp_all E := repeat wp_next E.

(** *** One turn of the loop *)

Lemma in_moves (x : list string * StationState) (l : list (list string * StationState)) :
  bool_decide (x ∈ l) = true -> x ∈ l.
Proof. intros H. by apply bool_decide_eq_true in H. Qed.

Ltac turned_done :=
  unfold turned; wsimpl_goal;
  first
    [ exists []; rewrite app_nil_r; split; [reflexivity|]; split; [|constructor];
      cbn [map]; repeat match goal with H : state _ = _ |- _ => rewrite H end;
      apply in_moves; vm_compute; reflexivity
    | eexists [_]; split; [eassumption|]; split; [|by repeat constructor];
      cbn [map DataLogger.r_activity];
      repeat match goal with H : state _ = _ |- _ => rewrite H end;
      apply in_moves; vm_compute; reflexivity ].

Lemma idle_turned E w :
  invariant false w -> state (ctl w) = IDLE ->
  wp (_state_idle E) (fun _ w' => turned w w') (fun _ w' => turned w w') w.
Proof.
  intros (Hc & Hheap & Hown & Hstrict) Hidle. unfold _state_idle.
  wp_all E; turned_done.
Qed.

Lemma advancing_turned E a w :
  invariant false w -> state (ctl w) = advancing_state a ->
  wp (advancing_handler E a) (fun _ w' => turned w w') (fun _ w' => turned w w') w.
Proof.
  intros (Hc & Hheap & Hown & Hstrict) Hst.
  destruct Hown as (l & p & stamp & earlier & Hl & Hp & Hrows); [by destruct a; rewrite Hst|].
  destruct a; cbn [advancing_handler advancing_state] in *;
    unfold _state_advancing_to_process, _state_advancing_to_exit.
  all: wp_all E; turned_done.
Qed.

Lemma processing_turned E w :
  state (ctl w) = PROCESSING ->
  wp (_state_processing E) (fun _ w' => turned w w') (fun _ w' => turned w w') w.
Proof. intros Hst. unfold _state_processing. wp_all E; turned_done. Qed.

Lemma exiting_turned E w :
  invariant false w -> state (ctl w) = EXITING ->
  wp (_state_exiting E) (fun _ w' => turned w w') (fun _ w' => turned w w') w.
Proof.
  intros (Hc & Hheapok & Hown & Hstrict) Hst.
  destruct Hown as (l & p & stamp & earlier & Hl & Hp & Hrows); [by rewrite Hst|].
  unfold _state_exiting. wp_all E; [turned_done|].
  eapply wp_mono; [| |apply clear_wait_unchanged]; cbv beta;
    intros ? w' (Hctl & Hheap & Hdl & Hmot & _); wsimpl.
  2:{ unfold turned. rewrite Hctl, Hdl. turned_done. }
  wp_next E. wp_next E. wp_next E; [unfold turned; wsimpl_goal; rewrite Hctl, Hdl; turned_done|].
  wp_next E. wp_next E. wp_next E. wsimpl_goal. rewrite Hctl, Hl.
  wp_next E.
  eapply (wp_the_part_known l p); [by wsimpl_goal; rewrite Hctl|by wsimpl_goal; rewrite Hheap|].
  wp_next E. wsimpl_goal. apply wp_log_event; [cbv zeta|by wsimpl_goal; rewrite Hdl].
  wsimpl_goal. wp_next E; [unfold turned; wsimpl_goal; rewrite Hctl, Hdl; turned_done|].
  intros d' Hrows' Hkpis'. rewrite Hdl in Hrows'. wp_next E. unfold part_add_event. wp_next E.
  eapply (wp_the_part_known l p); [by wsimpl_goal; rewrite Hctl|by wsimpl_goal; rewrite Hheap|].
  wp_all E. turned_done.
Qed.

Lemma dispatch_turned E w :
  invariant false w ->
  wp (dispatch E) (fun _ w' => turned w w') (fun _ w' => turned w w') w.
Proof.
  intros Hinv. unfold dispatch. apply wp_bind, wp_get.
  destruct (state (ctl w)) eqn:Hst.
  - by apply idle_turned.
  - by apply (advancing_turned E to_process).
  - by apply processing_turned.
  - by apply (advancing_turned E to_exit).
  - by apply exiting_turned.
Qed.

(** The [except] clause touches neither the controller, nor the parts,
    nor the logger. *)
Lemma recover_keeps E e w :
  let w' := snd (recover E e w) in
  ctl w' = ctl w /\ heap w' = heap w /\ data_logger w' = data_logger w.
Proof.
  assert (wp (recover E e)
            (fun _ w' => ctl w' = ctl w /\ heap w' = heap w /\ data_logger w' = data_logger w)
            (fun _ w' => ctl w' = ctl w /\ heap w' = heap w /\ data_logger w' = data_logger w)
            w) as Hwp.
  { unfold recover. wp_all E; by wsimpl_goal. }
  unfold wp in Hwp. cbv zeta. by destruct (recover E e w) as [[[]|e'] w'].
Qed.

Lemma turned_keeps w w1 w2 :
  turned w w1 -> ctl w2 = ctl w1 -> data_logger w2 = data_logger w1 -> turned w w2.
Proof. unfold turned. by intros H -> ->. Qed.

Lemma turn_cycle E w :
  reachable false w -> turned w (snd (iteration E w)).
Proof.
  intros Hreach.
  pose proof (dispatch_turned E w (reachable_invariant _ _ Hreach)) as Hwp.
  unfold wp in Hwp.
  unfold iteration, try_except, mbind, M_bind.
  destruct (dispatch E w) as [[[]|e] w1] eqn:Hrun.
  - destruct (sleep_returns E 50 w1) as (w2 & -> & (Hctl & _ & Hdl & _) & _); [lia|].
    by apply (turned_keeps w w1).
  - destruct (recover_keeps E e w1) as (Hctl & _ & Hdl).
    by apply (turned_keeps w w1).
Qed.

(** X7.  One turn of the control loop of a station that was built and
    then started, stopped and run in any way, against any environment.
    The turn appends at most one row to the log, a row of this station,
    and the row and the state after the turn are those of one of the moves
    of the state before: from IDLE an ENTER leads to ADVANCING_TO_PROCESS;
    an advancing state is left without a row for the next state or with
    its timeout error for IDLE; PROCESSING leads to ADVANCING_TO_EXIT;
    EXITING leads to IDLE with an EXIT; and a turn may leave the state
    as it is, without a row. *)
Theorem turn_follows_the_cycle E w :
  reachable false w ->
  let w' := snd (iteration E w) in
  exists new,
    DataLogger.rows (data_logger w') = DataLogger.rows (data_logger w) ++ new /\
    (map DataLogger.r_activity new, state (ctl w')) ∈ moves (state (ctl w)) /\
    Forall (fun r => DataLogger.r_station r = station_id (ctl w)) new /\
    (length new <= 1)%nat.
Proof.
  intros Hreach. cbv zeta.
  destruct (turn_cycle E w Hreach) as (new & Hrows & Hmove & Hall).
  exists new. split_and!; try done.
  assert (length (map DataLogger.r_activity new) <= 1)%nat as Hlen; [|by rewrite length_map in Hlen].
  revert Hmove. generalize (map DataLogger.r_activity new). intros acts.
  destruct (state (ctl w)); cbn [moves]; rewrite !elem_of_cons, elem_of_nil;
    intros Hcase; repeat (destruct Hcase as [[= -> _]|Hcase]; [cbn; lia|]); done.
Qed.

(** *** The log of a station *)




(** [start] and [stop] assign [running], [stop_event] and [thread], and
    nothing else of the controller; they touch neither parts nor logger. *)
Lemma flags_eta c :
  c = set_thread (thread c) (set_stop_event (stop_event c) (set_running (running c) c)).
Proof. by destruct c. Qed.



Lemma iteration_same_station E w : same_station (ctl w) (ctl (snd (iteration E w))).
Proof.
  pose proof (dispatch_keeps_flags E w) as Hwp. unfold wp in Hwp.
  unfold iteration, try_except, mbind, M_bind.
  destruct (dispatch E w) as [[[]|e] w1] eqn:Hrun.
  - destruct (sleep_returns E 50 w1) as (w2 & -> & (Hctl & _) & _); [lia|].
    cbn [snd]. rewrite Hctl, Hwp. by wsimpl_goal.
  - destruct (recover_keeps E e w1) as (Hctl & _).
    rewrite Hctl, Hwp. by wsimpl_goal.
Qed.




(** *** The motor of a station *)

Lemma own_entry_call k v c : own_motor_call k v (entry_call c).
Proof. unfold entry_call. by destruct (_ =? _). Qed.

Lemma own_exit_call k v c : own_motor_call k v (exit_call c).
Proof. unfold exit_call. by destruct (_ =? _). Qed.

Lemma dom_command (m : gmap Z Z) k v : dom m ⊆ {[k]} -> dom (<[k:=v]> m) ⊆ ({[k]} : gset Z).
Proof.
  intros Hdom. rewrite dom_insert_L. apply union_least; [done|exact Hdom].
Qed.

Ltac drives_done :=
  unfold drives_only; wsimpl_goal;
  repeat match goal with
         | H : ctl _ = ctl _ |- _ => rewrite !H
         end;
  repeat match goal with
         | H : drives_only _ _ _ |- _ =>
             rewrite ?(proj1 H), ?(proj1 (proj2 H));
             destruct H as (_ & _ & ? & ?)
         end;
  split_and!;
  [ reflexivity | reflexivity
  | rewrite ?Forall_app; repeat split; try assumption;
    repeat constructor; first [ done | apply own_entry_call | apply own_exit_call ]
  | repeat apply dom_command; assumption ].

(** The wait of [_state_exiting] only reads the exit sensor and sleeps,
    however it ends. *)
Lemma clear_wait_calls E fuel start_time timeout w :
  wp (clear_wait E fuel start_time timeout)
     (fun _ w' => unchanged w w' /\
        exists polls, trace w' = trace w ++ polls /\
          Forall (fun x => x = exit_call (ctl w) \/ exists d, x = sleep d) polls)
     (fun _ w' => unchanged w w' /\
        exists polls, trace w' = trace w ++ polls /\
          Forall (fun x => x = exit_call (ctl w) \/ exists d, x = sleep d) polls) w.
Proof.
  assert (forall w, unchanged w w /\
            exists polls, trace w = trace w ++ polls /\
              Forall (fun x => x = exit_call (ctl w) \/ exists d, x = sleep d) polls) as Hnone.
  { intros w0. split; [apply unchanged_refl|]. exists []. by rewrite app_nil_r. }
  revert w. induction fuel as [|fuel IH]; intros w; cbn [clear_wait].
  - apply wp_bind, wp_get. destruct (_ <? _); apply wp_ret, Hnone.
  - apply wp_bind, wp_get. destruct (_ <? _); [|apply wp_ret, Hnone].
    apply wp_bind, wp_exit_sensor. cbv zeta.
    destruct (a_raise _).
    { split; [apply unchanged_tick|]. exists [exit_call (ctl w)]. split; [done|].
      constructor; [by left|done]. }
    destruct (a_bool _); cbn [negb].
    + apply wp_bind, wp_time_sleep. cbn [Z.ltb Z.compare].
      eapply wp_mono; [| |apply IH]; cbv beta;
        intros ? w' (Hw' & polls & Htrace & Hpolls); wsimpl.
      all: split; [eapply unchanged_trans; [|exact Hw']; by repeat split|].
      all: exists (exit_call (ctl w) :: sleep 100 :: polls).
      all: split; [by rewrite Htrace, <- !app_assoc|].
      all: constructor; [by left|]; constructor; [by right; eexists|done].
    + apply wp_bind, wp_time_sleep. cbn [Z.ltb Z.compare].
      apply wp_ret. split; [by repeat split|].
      exists [exit_call (ctl w); sleep 500]. wsimpl_goal. split; [by rewrite <- !app_assoc|].
      constructor; [by left|]. constructor; [by right; eexists|done].
Qed.

Lemma drives_only_polls k v w w' polls :
  drives_only k v w -> unchanged w w' -> trace w' = trace w ++ polls ->
  Forall (fun x => x = exit_call (ctl w) \/ exists d, x = sleep d) polls ->
  drives_only k v w'.
Proof.
  intros (Hk & Hv & Htr & Hdom) (Hctl & _ & _ & Hmot & _) Htrace Hpolls.
  unfold drives_only. rewrite Hctl, Hmot, Htrace. split_and!; try done.
  apply Forall_app. split; [done|].
  eapply Forall_impl; [exact Hpolls|]. intros x [->|[d ->]]; [apply own_exit_call|done].
Qed.

Lemma dispatch_drives_only E k v w :
  drives_only k v w ->
  wp (dispatch E) (fun _ w' => drives_only k v w') (fun _ w' => drives_only k v w') w.
Proof.
  intros Hown. unfold dispatch. apply wp_bind, wp_get. destruct (state (ctl w)).
  - unfold _state_idle. wp_all E; drives_done.
  - unfold _state_advancing_to_process. wp_all E; drives_done.
  - unfold _state_processing. wp_all E; drives_done.
  - unfold _state_advancing_to_exit. wp_all E; drives_done.
  - unfold _state_exiting. wp_all E; [drives_done|].
    match goal with
    | |- wp _ _ _ ?w1 => assert (drives_only k v w1) as Hown1 by drives_done
    end.
    eapply wp_mono; [| |apply clear_wait_calls]; cbv beta;
      intros ? w' (Hsame & polls & Htrace & Hpolls);
      pose proof (drives_only_polls _ _ _ _ _ Hown1 Hsame Htrace Hpolls) as Hown2;
      [|done].
    destruct Hsame as (Hctl & _). wsimpl. clear Hown1 Htrace Hpolls.
    wp_all E; drives_done.
Qed.

Lemma iteration_drives_only E k v w :
  drives_only k v w -> drives_only k v (snd (iteration E w)).
Proof.
  intros Hown. pose proof (dispatch_drives_only E k v w Hown) as Hwp. unfold wp in Hwp.
  unfold iteration, try_except, mbind, M_bind.
  destruct (dispatch E w) as [[[]|e] w1] eqn:Hrun.
  - unfold time_sleep. cbn [Z.ltb Z.compare snd]. drives_done.
  - assert (wp (recover E e) (fun _ w' => drives_only k v w')
              (fun _ w' => drives_only k v w') w1) as Hrec.
    { unfold recover. wp_all E; drives_done. }
    unfold wp in Hrec. by destruct (recover E e w1) as [[[]|e'] w'].
Qed.

Lemma start_drives_only E k v w :
  drives_only k v w -> drives_only k v (snd (start E w)).
Proof.
  intros Hown.
  assert (wp (start E) (fun _ w' => drives_only k v w') (fun _ w' => drives_only k v w') w)
    as Hwp.
  { unfold start. wp_all E; drives_done. }
  unfold wp in Hwp. by destruct (start E w) as [[[]|e'] w'].
Qed.

Lemma stop_drives_only E k v w :
  drives_only k v w -> drives_only k v (snd (stop E w)).
Proof.
  intros Hown.
  assert (wp (stop E) (fun _ w' => drives_only k v w') (fun _ w' => drives_only k v w') w)
    as Hwp.
  { unfold stop. wp_all E; drives_done. }
  unfold wp in Hwp. by destruct (stop E w) as [[[]|e'] w'].
Qed.

(** X9.  A controller is built for station [n] from a configuration with
    station speed [speed], and then started, stopped and run in any way.
    Every motor call it ever makes is for motor [2 + n]: [set_speed] is
    called with the configured speed, forward for station 1 and reversed
    for any other station, and no other motor gets a commanded speed. *)
Theorem station_drives_only_its_motor n config speed c msgs d now w :
  __init__ n config = Ok (c, msgs) ->
  config_get config "motors" "station_speed" = Ok speed ->
  follows (new_world c d msgs now) w ->
  let v := if n =? 1 then speed else - speed in
  Forall (own_motor_call (2 + n) v) (trace w) /\
  dom (motors w) ⊆ {[2 + n]} /\
  motor_num (ctl w) = 2 + n /\ motor_speed (ctl w) = v.
Proof.
  intros Hinit Hspeed Hfol v.
  assert (drives_only (2 + n) v w) as (Hk & Hv & Htr & Hdom); [|done].
  induction Hfol as [|E w _ IH|E w _ IH|E w _ IH].
  - unfold __init__ in Hinit. rewrite Hspeed in Hinit.
    destruct (config_get _ _ _); [|done]. injection Hinit as <- <-.
    unfold drives_only, new_world. wsimpl_goal. split_and!; try done.
  - by apply start_drives_only.
  - by apply stop_drives_only.
  - by apply iteration_drives_only.
Qed.

Lemma dispatch_motor E w :
  wp (dispatch E)
     (fun _ w' => motors w' = motors w \/
                  motors w' = <[motor_num (ctl w) := 0]> (motors w))
     (fun _ w' => <[motor_num (ctl w) := 0]> (motors w')
                  = <[motor_num (ctl w) := 0]> (motors w)) w.
Proof.
  unfold dispatch. apply wp_bind, wp_get. destruct (state (ctl w)).
  - unfold _state_idle. wp_all E; wsimpl_goal; first [by left | done].
  - unfold _state_advancing_to_process.
    wp_all E; wsimpl_goal; rewrite ?insert_insert_eq; first [by right | done].
  - unfold _state_processing. wp_all E; wsimpl_goal; first [by left | done].
  - unfold _state_advancing_to_exit.
    wp_all E; wsimpl_goal; rewrite ?insert_insert_eq; first [by right | done].
  - unfold _state_exiting. wp_all E; [by wsimpl_goal|].
    eapply wp_mono; [| |apply clear_wait_unchanged]; cbv beta;
      intros ? w' (Hctl & _ & _ & Hmot & _); wsimpl;
      [|by rewrite Hmot, insert_insert_eq].
    wp_all E; wsimpl_goal; rewrite ?Hmot, ?insert_insert_eq; first [by right | done].
Qed.

(** X10.  A turn of the loop that ends normally leaves the motors as
    they were or with the station's own motor commanded to 0: whatever
    the handler did or raised, the motor is not left running. *)
Theorem turn_leaves_motor_stopped E w w' :
  iteration E w = (Ok tt, w') ->
  motors w' = motors w \/ motors w' = <[motor_num (ctl w) := 0]> (motors w).
Proof.
  pose proof (dispatch_motor E w) as Hwp. unfold wp in Hwp.
  unfold iteration, try_except, mbind, M_bind.
  destruct (dispatch E w) as [[[]|e] w1] eqn:Hrun.
  - unfold time_sleep. cbn [Z.ltb Z.compare]. by intros [= <-].
  - pose proof (dispatch_raise _ _ _ _ Hrun) as Hctl.
    assert (motor_num (ctl w1) = motor_num (ctl w)) as Hnum by (by rewrite Hctl).
    unfold recover, motors_stop, call_unit, extern, time_sleep, mbind, M_bind, get, modify.
    cbn [Z.ltb Z.compare]. wsimpl_goal. rewrite Hnum.
    destruct (a_raise _); [done|]. intros [= <-]. wsimpl_goal. by right.
Qed.

(** *** The handlers, when their calls return *)

Ltac run_done := first [ congruence | done ].

(** X11.  An advancing handler whose motor calls return and whose wait
    on the position sensor returns true.  The handler returns; it called
    [set_speed], the wait and [stop], in this order, and nothing else; the
    motor is commanded to 0; the state is PROCESSING after advancing to
    the process position and EXITING after advancing to the exit; the
    logger, the parts and [current_part] are untouched. *)
Theorem advancing_reaches_position E a w :
  let n := length (trace w) in
  let c := ctl w in
  a_raise (answer E n (set_speed (motor_num c) (motor_speed c))) = None ->
  a_raise (answer E (S n) (wait_for_pi (position_pin a c) 10000)) = None ->
  a_bool (answer E (S n) (wait_for_pi (position_pin a c) 10000)) = true ->
  a_raise (answer E (S (S n)) (stop_motor (motor_num c))) = None ->
  exists w',
    advancing_handler E a w = (Ok tt, w') /\
    trace w' = trace w ++ [set_speed (motor_num c) (motor_speed c);
                           wait_for_pi (position_pin a c) 10000;
                           stop_motor (motor_num c)] /\
    motors w' !! motor_num c = Some 0 /\
    state (ctl w') = position_state a /\
    current_part (ctl w') = current_part c /\
    heap w' = heap w /\
    data_logger w' = data_logger w.
Proof.
  intros n c Hspeed Hwait Htrue Hstop. subst n c.
  apply wp_returns_unit.
  destruct a; cbn [advancing_handler position_pin position_state] in *;
    unfold _state_advancing_to_process, _state_advancing_to_exit.
  all: wp_pure; apply wp_motors_set_speed; cbv zeta; wsimpl_goal; rewrite Hspeed.
  all: destruct (station_num (ctl w) =? 1).
  all: wp_pure; apply wp_call_bool; cbv zeta; wsimpl_goal; rewrite Hwait, Htrue.
  all: wp_pure; apply wp_motors_stop; cbv zeta; wsimpl_goal; rewrite Hstop.
  all: wp_pure.
  all: rewrite <- !app_assoc; split_and!; try done.
  all: by rewrite lookup_insert_eq.
Qed.

(** X12.  [_state_processing] with a process time that is not negative:
    the handler returns after one sleep of [process_time], at least that
    much later, in state ADVANCING_TO_EXIT; it touches no motor, no part
    and not the logger. *)
Theorem processing_takes_process_time E w :
  0 <= process_time (ctl w) ->
  exists w',
    _state_processing E w = (Ok tt, w') /\
    trace w' = trace w ++ [sleep (process_time (ctl w))] /\
    clock w + process_time (ctl w) <= clock w' /\
    state (ctl w') = ADVANCING_TO_EXIT /\
    current_part (ctl w') = current_part (ctl w) /\
    heap w' = heap w /\ data_logger w' = data_logger w /\ motors w' = motors w.
Proof.
  intros Hpt. apply wp_returns_unit. unfold _state_processing.
  wp_pure. apply wp_time_sleep. destruct (Z.ltb_spec (process_time (ctl w)) 0); [lia|].
  wp_pure. split_and!; try done. lia.
Qed.

Lemma processing_fault E w :
  process_time (ctl w) < 0 -> state (ctl w) = PROCESSING ->
  exists w1, dispatch E w = (Raise (OtherError "ValueError"), w1) /\
             ctl w1 = ctl w /\ heap w1 = heap w /\ data_logger w1 = data_logger w /\
             trace w1 = trace w.
Proof.
  intros Hpt Hst.
  unfold dispatch, mbind, M_bind, get. rewrite Hst.
  unfold _state_processing, time_sleep, mbind, M_bind, get, modify, raise.
  wsimpl_goal. destruct (Z.ltb_spec (process_time (ctl w)) 0); [|lia].
  eexists. split; [reflexivity|]. by wsimpl_goal.
Qed.

(** X13.  A negative process time is a fault that does not go away.  In
    PROCESSING every turn raises at the sleep, before the state is
    assigned, and is recovered from; so after any number of turns of the
    loop the station is still in PROCESSING with the same part, and
    nothing was logged. *)
Theorem negative_process_time_stalls E n w :
  process_time (ctl w) < 0 ->
  state (ctl w) = PROCESSING ->
  let w' := snd (loop E n w) in
  state (ctl w') = PROCESSING /\
  current_part (ctl w') = current_part (ctl w) /\
  heap w' = heap w /\
  data_logger w' = data_logger w /\
  Forall (fun c => c <> sleep (process_time (ctl w)))
         (drop (length (trace w)) (trace w')).
Proof.
  intros Hpt Hst. cbv zeta.
  assert (forall w1 r w',
            ctl w1 = ctl w -> heap w1 = heap w -> data_logger w1 = data_logger w ->
            loop E n w1 = (r, w') ->
            ctl w' = ctl w /\ heap w' = heap w /\ data_logger w' = data_logger w /\
            exists new, trace w' = trace w1 ++ new /\
              Forall (fun c => c <> sleep (process_time (ctl w))) new) as Hloop.
  { induction n as [|n IH]; intros w1 r w' Hctl Hheap Hdl Hrun; cbn [loop] in Hrun;
      unfold mbind at 1, M_bind at 1, get in Hrun.
    - destruct (loop_condition w1); injection Hrun as <- <-;
        (split_and!; [done|done|done|]); exists []; by rewrite app_nil_r.
    - destruct (loop_condition w1);
        [|injection Hrun as <- <-; (split_and!; [done|done|done|]);
          exists []; by rewrite app_nil_r].
      destruct (processing_fault E w1) as (w2 & Hfault & Hctl2 & Hheap2 & Hdl2 & Htr2);
        [by rewrite Hctl|by rewrite Hctl|].
      assert (exists r3 w3, iteration E w1 = (r3, w3) /\ ctl w3 = ctl w /\ heap w3 = heap w /\
                data_logger w3 = data_logger w /\
                exists new, trace w3 = trace w1 ++ new /\
                  Forall (fun c => c <> sleep (process_time (ctl w))) new)
        as (r3 & w3 & Hturn & Hctl3 & Hheap3 & Hdl3 & new & Htr3 & Hnew).
      { unfold iteration, try_except. erewrite bind_raise by exact Hfault.
        unfold recover, motors_stop, call_unit, extern, time_sleep, mbind, M_bind, get, modify.
        cbn [Z.ltb Z.compare]. wsimpl_goal.
        destruct (a_raise _); eexists _, _; (split; [reflexivity|]); wsimpl_goal;
          rewrite ?Hctl2, ?Hheap2, ?Hdl2, ?Htr2; (split_and!; [done|done|done|]).
        - eexists [_]. split; [done|]. by repeat constructor.
        - eexists [_; _]. split; [by rewrite <- app_assoc|].
          repeat constructor; [done|]. intros [= Heq]. lia. }
      destruct r3 as [[]|e].
      + erewrite bind_ok in Hrun by exact Hturn.
        destruct (IH w3 r w' Hctl3 Hheap3 Hdl3 Hrun) as (? & ? & ? & more & Hmore & Hall).
        (split_and!; [done|done|done|]). exists (new ++ more).
        split; [by rewrite Hmore, Htr3, app_assoc|]. by apply Forall_app.
      + erewrite bind_raise in Hrun by exact Hturn. injection Hrun as <- <-.
        (split_and!; [done|done|done|]). by exists new. }
  destruct (loop E n w) as [r w'] eqn:Hrun. cbn [snd].
  destruct (Hloop w r w' eq_refl eq_refl eq_refl Hrun) as (Hctl & Hheap & Hdl & new & Htrace & Hnew).
  rewrite Hctl, Htrace, drop_app_length. by split_and!.
Qed.

Lemma insert_last {A} (h : list A) (x y : A) : <[length h := y]> (h ++ [x]) = h ++ [y].
Proof. induction h as [|a h IH]; [done|]. cbn. f_equal. exact IH. Qed.

(** The run of [_state_idle] that takes a part in. *)
Lemma idle_run E w :
  part_arrives E w ->
  let n := length (trace w) in
  let c := ctl w in
  let id := identifier (a_tag (answer E (S n) (read_tag 2000))) (identified_at E w) in
  let opened := answer E (S (S (S (S n)))) open_log_file in
  exists w',
    _state_idle E w = (Ok tt, w') /\
    trace w' = trace w ++ [entry_call c; read_tag 2000; entry_call c;
                           import_Part; open_log_file] /\
    heap w' = heap w ++ [mkPart id [(station_id c, "ENTER", clock w')]] /\
    current_part (ctl w') = Some (length (heap w)) /\
    DataLogger.rows (data_logger w')
      = DataLogger.rows (data_logger w)
        ++ [DataLogger.mkRow (a_stamp opened) (station_id c) id "ENTER"] /\
    DataLogger.kpis (data_logger w') = DataLogger.kpis (data_logger w) /\
    state (ctl w') = ADVANCING_TO_PROCESS /\
    motors w' = motors w.
Proof.
  intros (Hr0 & Hb0 & Hr1 & Hr2 & Hb2 & Hr3 & Hr4). cbv zeta in *.
  apply wp_returns_unit. unfold _state_idle, identifier, identified_at.
  apply wp_bind, wp_entry_sensor. cbv zeta. rewrite Hr0, Hb0.
  wp_pure. apply wp_call_tag. cbv zeta. wsimpl_goal. rewrite Hr1.
  wp_pure. apply wp_entry_sensor. cbv zeta. wsimpl_goal. rewrite Hr2, Hb2.
  cbn [negb]. destruct (truthy _) eqn:Htag.
  all: wp_pure; apply wp_call_unit; cbv zeta; wsimpl_goal; rewrite Hr3.
  all: unfold new_part; wp_pure.
  all: eapply wp_the_part_known; [by wsimpl_goal|by wsimpl_goal|].
  all: wp_pure; (apply wp_log_event; [cbv zeta|by intros [=]]); wsimpl_goal; rewrite Hr4.
  all: intros d' Hrows Hkpis; wp_pure; unfold part_add_event; wp_pure.
  all: eapply wp_the_part_known; [by wsimpl_goal|by wsimpl_goal|].
  all: wp_pure.
  all: rewrite <- !app_assoc; split_and!; try done.
  all: by rewrite insert_last.
Qed.

(** X14.  A part is at the entry sensor before and after the tag read,
    and the calls of [_state_idle] return.  The handler returns, having
    read the sensor, the tag and the sensor again, imported [Part] and
    written to the log, and nothing else.  One part object is built and
    becomes [current_part]; its identifier is the tag, or, when no tag
    was read, the letter P and the clock in milliseconds modulo 10000.
    One row is appended to the log, the ENTER of this part at this
    station, and the same event is the part's whole history.  No counter
    changes, no motor is commanded, and the state is
    ADVANCING_TO_PROCESS. *)
Theorem idle_takes_part_in E w :
  part_arrives E w ->
  let n := length (trace w) in
  let c := ctl w in
  let id := identifier (a_tag (answer E (S n) (read_tag 2000))) (identified_at E w) in
  let opened := answer E (S (S (S (S n)))) open_log_file in
  exists w',
    _state_idle E w = (Ok tt, w') /\
    trace w' = trace w ++ [entry_call c; read_tag 2000; entry_call c;
                           import_Part; open_log_file] /\
    heap w' = heap w ++ [mkPart id [(station_id c, "ENTER", clock w')]] /\
    current_part (ctl w') = Some (length (heap w)) /\
    DataLogger.rows (data_logger w')
      = DataLogger.rows (data_logger w)
        ++ [DataLogger.mkRow (a_stamp opened) (station_id c) id "ENTER"] /\
    DataLogger.kpis (data_logger w') = DataLogger.kpis (data_logger w) /\
    state (ctl w') = ADVANCING_TO_PROCESS /\
    motors w' = motors w.
Proof. apply idle_run. Qed.

(** X15.  Identifiers made from the clock repeat.  Two parts arrive
    without a tag, at the same or at different stations, at moments a
    multiple of ten seconds apart: both get the same identifier, one of
    the ten thousand strings P0 to P9999. *)
Theorem generated_ids_repeat E1 w1 E2 w2 k :
  part_arrives E1 w1 ->
  part_arrives E2 w2 ->
  truthy (a_tag (answer E1 (S (length (trace w1))) (read_tag 2000))) = false ->
  truthy (a_tag (answer E2 (S (length (trace w2))) (read_tag 2000))) = false ->
  identified_at E2 w2 = identified_at E1 w1 + 10000 * k ->
  exists p1 p2 m,
    heap (snd (_state_idle E1 w1)) !! length (heap w1) = Some p1 /\
    heap (snd (_state_idle E2 w2)) !! length (heap w2) = Some p2 /\
    part_id p1 = part_id p2 /\
    part_id p1 = "P" +:+ pretty m /\ 0 <= m < 10000.
Proof.
  intros H1 H2 Htag1 Htag2 Hlater.
  destruct (idle_run E1 w1 H1) as (w1' & -> & _ & Hheap1 & _).
  destruct (idle_run E2 w2 H2) as (w2' & -> & _ & Hheap2 & _).
  cbn [snd]. rewrite Hheap1, Hheap2, !snoc_lookup.
  unfold identifier. rewrite Htag1, Htag2, Hlater.
  eexists _, _, (identified_at E1 w1 `mod` 10000). split_and!; try done.
  - cbn [part_id]. by rewrite (Z.mul_comm 10000 k), Z_mod_plus_full.
  - by apply Z.mod_pos_bound.
  - by apply Z.mod_pos_bound.
Qed.

(** *** Starting, stopping and the loop *)


(** X17.  [start] sets [running] before it starts the thread.  When
    starting the thread raises, the exception leaves [start] with
    [running] true and no thread started, and from then on [start] does
    nothing at all: the station cannot be started until [stop] is
    called. *)
Theorem failed_start_blocks_restart E w e :
  running (ctl w) = false ->
  a_raise (answer E (length (trace w)) thread_start) = Some e ->
  exists w',
    start E w = (Raise e, w') /\
    running (ctl w') = true /\
    threads w' = threads w /\
    forall E', start E' w' = (Ok tt, w').
Proof.
  intros Hrun Hfail.
  assert (wp (start E) (fun _ _ => False)
            (fun e' w' => e' = e /\ running (ctl w') = true /\ threads w' = threads w) w)
    as Hwp.
  { unfold start. wp_pure. rewrite Hrun. wp_pure. apply wp_call_unit; cbv zeta.
    wsimpl_goal. rewrite Hfail. by wsimpl_goal. }
  unfold wp in Hwp. destruct (start E w) as [[[]|e'] w'] eqn:Hstart; [done|].
  destruct Hwp as (-> & Hr & Ht). exists w'. split_and!; try done.
  intros E'. unfold start, mbind, M_bind, get. by rewrite Hr.
Qed.

(** X18.  The loop of [_run] never ends itself.  Run for [n] turns from
    any world, it either finds its condition false at once, or is still
    going after the [n] turns, or was left by an exception that
    [motors.stop] raised in the [except] clause; no turn changes the
    flags the condition tests. *)
Theorem loop_ends_only_by_a_stop_fault E n w :
  match loop E n w with
  | (Ok going, w') =>
      going = loop_condition w /\ loop_condition w' = loop_condition w /\
      (loop_condition w = false -> w' = w)
  | (Raise e, w') =>
      loop_condition w = true /\
      exists before,
        trace w' = before ++ [stop_motor (motor_num (ctl w))] /\
        a_raise (answer E (length before) (stop_motor (motor_num (ctl w)))) = Some e
  end.
Proof.
  revert w. induction n as [|n IH]; intros w; cbn [loop];
    unfold mbind at 1, M_bind at 1, get.
  - by destruct (loop_condition w) eqn:Hcond; unfold mret, M_ret; rewrite ?Hcond.
  - destruct (loop_condition w) eqn:Hcond; [|by unfold mret, M_ret; rewrite ?Hcond].
    destruct (iteration E w) as [[[]|e] w1] eqn:Hturn.
    + erewrite bind_ok by exact Hturn.
      pose proof (iteration_keeps_condition _ _ _ _ Hturn) as Hkeep.
      destruct (iteration_same_station E w) as (_ & _ & _ & _ & Hnum).
      rewrite Hturn in Hnum. cbn [snd] in Hnum.
      specialize (IH w1). destruct (loop E n w1) as [[going|e] w'].
      * destruct IH as (-> & Hc' & _). rewrite Hc', Hkeep, Hcond. by split_and!.
      * destruct IH as (_ & before & Htrace & Hraise). split; [done|].
        exists before. by rewrite <- Hnum.
    + erewrite bind_raise by exact Hturn. split; [done|].
      by apply iteration_raises.
Qed.

(** *** The example station again *)

Lemma at_exit_follows : follows example_world at_exit.
Proof.
  apply (follows_turn example_world smooth processed).
  apply (follows_turn example_world smooth at_process).
  apply (follows_turn example_world smooth entered).
  apply (follows_turn example_world smooth started).
  apply (follows_start example_world smooth example_world).
  apply follows_here.
Qed.

Lemma turn_follows_the_cycle_witness :
  let w' := snd (iteration smooth entered) in
  exists new,
    DataLogger.rows (data_logger w') = DataLogger.rows (data_logger entered) ++ new /\
    (map DataLogger.r_activity new, state (ctl w')) ∈ moves (state (ctl entered)) /\
    Forall (fun r => DataLogger.r_station r = station_id (ctl entered)) new /\
    (length new <= 1)%nat.
Proof. apply (turn_follows_the_cycle smooth entered), entered_reachable. Defined.


Lemma station_drives_only_its_motor_witness :
  Forall (own_motor_call 3 60) (trace at_exit) /\
  dom (motors at_exit) ⊆ {[3]} /\
  motor_num (ctl at_exit) = 3 /\ motor_speed (ctl at_exit) = 60.
Proof.
  apply (station_drives_only_its_motor 1 example_config 60 example_controller
           [(INFO, "Station 1 initialized")]
           (DataLogger.after [] (DataLogger.fresh "data/events.csv" None))
           1767261600000 at_exit);
    [apply example_controller_built | vm_compute; reflexivity | apply at_exit_follows].
Defined.

Lemma turn_leaves_motor_stopped_witness :
  let w' := snd (iteration smooth entered) in
  motors w' = motors entered \/ motors w' = <[motor_num (ctl entered) := 0]> (motors entered).
Proof. apply (turn_leaves_motor_stopped smooth entered). vm_compute. reflexivity. Defined.

Lemma advancing_reaches_position_witness :
  exists w',
    advancing_handler smooth to_process entered = (Ok tt, w') /\
    state (ctl w') = PROCESSING /\
    motors w' !! 3 = Some 0.
Proof.
  destruct (advancing_reaches_position smooth to_process entered) as
    (w' & Hrun & _ & Hmotor & Hstate & _); [vm_compute; reflexivity ..|].
  exists w'; split_and!; [exact Hrun|exact Hstate|exact Hmotor].
Defined.

Lemma processing_takes_process_time_witness :
  exists w',
    _state_processing smooth at_process = (Ok tt, w') /\
    clock at_process + 100 <= clock w' /\
    state (ctl w') = ADVANCING_TO_EXIT.
Proof.
  destruct (processing_takes_process_time smooth at_process) as
    (w' & Hrun & _ & Hclock & Hstate & _); [vm_compute; discriminate|].
  exists w'; split_and!; [exact Hrun|exact Hclock|exact Hstate].
Defined.

Lemma negative_process_time_stalls_witness :
  let w' := snd (loop smooth 3 backwards) in
  state (ctl w') = PROCESSING /\ data_logger w' = data_logger backwards.
Proof.
  destruct (negative_process_time_stalls smooth 3 backwards) as (Hstate & _ & _ & Hdl & _);
    [vm_compute; reflexivity | reflexivity |].
  split; [exact Hstate|exact Hdl].
Defined.

Lemma idle_takes_part_in_witness :
  exists w',
    _state_idle smooth started = (Ok tt, w') /\
    current_part (ctl w') = Some 0%nat /\
    state (ctl w') = ADVANCING_TO_PROCESS.
Proof.
  destruct (idle_takes_part_in smooth started) as
    (w' & Hrun & _ & _ & Hpart & _ & _ & Hstate & _).
  { unfold part_arrives. vm_compute. repeat split. }
  exists w'; split_and!; [exact Hrun|exact Hpart|exact Hstate].
Defined.

Lemma generated_ids_repeat_witness :
  exists p1 p2 m,
    heap (snd (_state_idle untagged started)) !! length (heap started) = Some p1 /\
    heap (snd (_state_idle untagged later)) !! length (heap later) = Some p2 /\
    part_id p1 = part_id p2 /\
    part_id p1 = "P" +:+ pretty m /\ 0 <= m < 10000.
Proof.
  apply (generated_ids_repeat untagged started untagged later 2).
  - unfold part_arrives. vm_compute. repeat split.
  - unfold part_arrives. vm_compute. repeat split.
  - reflexivity.
  - reflexivity.
  - vm_compute. reflexivity.
Defined.


Lemma failed_start_blocks_restart_witness :
  exists w',
    start no_threads example_world = (Raise RuntimeError, w') /\
    running (ctl w') = true /\
    threads w' = threads example_world.
Proof.
  destruct (failed_start_blocks_restart no_threads example_world RuntimeError) as
    (w' & Hrun & Hflag & Hthreads & _); [vm_compute; reflexivity ..|].
  exists w'; split_and!; [exact Hrun|exact Hflag|exact Hthreads].
Defined.

End StationControllerMore.

(** ** More on the threads that share a logger *)

Module ConcurrentMore.
Import DataLogger Concurrent ConcurrentFacts.

Lemma unfinished_thread (ths : list Thread) :
  Forall (fun th => finished th = true) ths \/
  exists j th, ths !! j = Some th /\ finished th = false.
Proof.
  induction ths as [|th ths [IH|(j & th' & Hj & Hth')]].
  - by left.
  - destruct (finished th) eqn:Hth.
    + left. by constructor.
    + right. by exists 0%nat, th.
  - right. by exists (S j), th'.
Qed.

(** X19.  The lock of the data logger cannot block the system.  Any
    number of threads call [log_event] and [get_kpis] on one logger and
    run statement by statement in any order, and some calls may raise
    inside the critical section.  At every moment either some thread can
    take its next step, or every thread has run its call to the end and
    the lock is free: the [with] block released it, also when the call
    raised. *)
Theorem lock_never_blocks_all log_file existing (jobs : list Job) schedule :
  let s := exec schedule (init log_file existing jobs) in
  (exists i s', step i s = Some s') \/
  (Forall (fun th => finished th = true) (threads s) /\ lock s = None).
Proof.
  intros s.
  destruct (exec_consistent _ schedule _ (init_consistent log_file existing jobs))
    as (_ & Hex & Hset). fold s in Hex, Hset.
  unfold settled in Hset. destruct (lock s) as [i|] eqn:Hlock.
  - left. exists i. unfold step.
    destruct (threads s !! i) as [[c pc0|sn]|] eqn:Hi; [|done|done].
    destruct pc0; try done; try by eexists.
    destruct (String.eqb (c_activity c) "EXIT"); by eexists.
  - destruct (unfinished_thread (threads s)) as [Hall|(j & th & Hj & Hth)]; [by right|].
    left. exists j. unfold step. rewrite Hj, Hlock.
    destruct th as [c pc0|[m|]]; [|done|by eexists].
    destruct pc0; try done; try by eexists.
    all: specialize (Hex j _ Hj eq_refl); congruence.
Qed.

End ConcurrentMore.
